(** * The self-learning answer agent of [backend/ai_agent.py]

    A shallow embedding of [SelfLearningAIAgent]: the prompt guard
    ([_validate_prompt], [_sanitize_prompt], [_check_rate_limit]), the
    backend gateway ([_call_openrouter]), candidate generation, peer
    review, winner selection and the milestone tracker, followed by the
    properties the specification states about them.

    Conventions of the embedding.
    - A Python [str] is a [string]; text algorithms run on its list of
      characters.  Only code points below 256 are represented.
    - Python numbers ([int], [float]) are rationals [Q]: arithmetic and
      comparisons are exact, binary64 rounding is not modelled.
    - A [dict] is a [gmap string _]; a [list] is a [list].
    - Code that reads the clock, talks to the HTTP peer, draws a random
      permutation or decodes JSON takes its answer from an [Env] value;
      the mutable attributes of the agent live in a [World] that is
      passed along, together with a trace of the effects performed.
    - An exception is an [exn] carried by the [Raise] outcome; only
      subclasses of [Exception] are represented.
    - The coroutines joined by [asyncio.gather] run one after the other,
      in the order they were created: each one touches the agent only
      in its synchronous prologue, which the event loop runs in that
      order. *)

From Stdlib Require Import QArith Lqa ZArith List String Ascii Permutation.
From stdpp Require Import gmap strings list fin_maps pretty.

Set Warnings "-register-all".
Local Open Scope string_scope.
Local Open Scope Z_scope.
Local Open Scope list_scope.

(* ===================================================================== *)
(** * Part I: the model                                                   *)
(* ===================================================================== *)

(** ** Text *)

Module Text.

Definition LT : ascii := "<"%char.
Definition GT : ascii := ">"%char.
Definition NL : ascii := "010"%char.
Definition DQ : ascii := "034"%char.

(** [s[:n]] for a Python [int] [n]: a negative bound counts from the end. *)
Definition py_take {A} (n : Z) (l : list A) : list A :=
  if 0 <=? n then take (Z.to_nat n) l
  else take (length l - Z.to_nat (- n)) l.

(** [l[-n:]] for a positive literal [n]. *)
Definition py_last {A} (n : nat) (l : list A) : list A :=
  drop (length l - n) l.

(** Position of the first occurrence of [c]. *)
Fixpoint index_of (c : ascii) (s : list ascii) : option nat :=
  match s with
  | [] => None
  | x :: r => if decide (x = c) then Some 0%nat else S <$> index_of c r
  end.

(** Number of leading copies of [c]. *)
Fixpoint run_length (c : ascii) (s : list ascii) : nat :=
  match s with
  | [] => 0%nat
  | x :: r => if decide (x = c) then S (run_length c r) else 0%nat
  end.

(** [re.sub(pattern, repl, s)] for a pattern that never matches the empty
    string.  [m t] is the length of the match of the pattern anchored at
    the start of [t], if there is one.  The scan goes left to right;
    [skip] counts the characters of the current match still to drop. *)
Fixpoint re_sub_go (m : list ascii → option nat) (repl : list ascii)
    (skip : nat) (s : list ascii) : list ascii :=
  match s with
  | [] => []
  | c :: rest =>
      match skip with
      | S k => re_sub_go m repl k rest
      | O =>
          match m s with
          | Some (S k) => repl ++ re_sub_go m repl k rest
          | _ => c :: re_sub_go m repl 0 rest
          end
      end
  end.

Definition re_sub m repl s := re_sub_go m repl 0 s.

(** [<[^>]+>] anchored at the start: [<], one character that is not [>],
    then everything up to the first [>]. *)
Definition match_tag (s : list ascii) : option nat :=
  match s with
  | c :: d :: r =>
      if decide (c = LT) then
        if decide (d = GT) then None
        else (λ i, i + 3)%nat <$> index_of GT r
      else None
  | _ => None
  end.

(** [\n{10,}] anchored at the start (greedy). *)
Definition match_newlines (s : list ascii) : option nat :=
  let k := run_length NL s in
  if decide (10 ≤ k)%nat then Some k else None.

Definition five_newlines : list ascii := replicate 5 NL.

Definition strip_tags := re_sub match_tag [].
Definition collapse_newlines := re_sub match_newlines five_newlines.

(** [str.isspace] on one character (code points below 256). *)
Definition is_space (c : ascii) : bool :=
  let n := nat_of_ascii c in
  ((9 <=? n) && (n <=? 13) || (28 <=? n) && (n <=? 32)
   || (n =? 133) || (n =? 160))%nat.

Fixpoint lstrip (s : list ascii) : list ascii :=
  match s with
  | c :: r => if is_space c then lstrip r else s
  | [] => []
  end.

(** [s.strip()] *)
Definition strip (s : string) : string :=
  string_of_list_ascii
    (rev (lstrip (rev (lstrip (list_ascii_of_string s))))).

(** Truth value of [s.strip()]. *)
Definition nonblank (s : string) : bool :=
  negb (String.eqb (strip s) "").

(** [len(s)] *)
Definition len (s : string) : Z := Z.of_nat (String.length s).

(** Lower case of the letters A to Z. *)
Definition lower (c : ascii) : ascii :=
  let n := nat_of_ascii c in
  if ((65 <=? n) && (n <=? 90))%nat then ascii_of_nat (n + 32) else c.

Fixpoint starts_with (p s : list ascii) : bool :=
  match p, s with
  | [], _ => true
  | a :: p', b :: s' => Ascii.eqb a b && starts_with p' s'
  | _ :: _, [] => false
  end.

(** [p in s] for strings. *)
Fixpoint contains (p s : list ascii) : bool :=
  starts_with p s
  || match s with [] => false | _ :: r => contains p r end.

Definition substring_of (p s : string) : bool :=
  contains (list_ascii_of_string p) (list_ascii_of_string s).

(** [re.search] of a literal under the [(?i)] flag. *)
Definition search_literal_i (lit text : string) : bool :=
  contains (map lower (list_ascii_of_string lit))
           (map lower (list_ascii_of_string text)).

End Text.

Import Text.

(** ** Python values, exceptions and outcomes *)

(** What [json.loads] and [resp.json()] produce.  [int] and [float]
    both become [VNum]. *)
Inductive pyval :=
| VNone
| VBool (b : bool)
| VNum (q : Q)
| VStr (s : string)
| VList (l : list pyval)
| VDict (d : gmap string pyval).

Abbreviation dict := (gmap string pyval).

Inductive exn_class :=
| RuntimeError | ValueError | TypeError | KeyError | IndexError
| AttributeError | ZeroDivisionError | JSONDecodeError
| SecurityException | PromptInjectionException
| ClientError | TimeoutError
| OtherError (name : string).

(** An exception: its class and [str(e)]. *)
Record exn := Exn { exn_class_of : exn_class; exn_message : string }.

Inductive outcome (A : Type) :=
| Ok (a : A)
| Raise (e : exn).
Arguments Ok {A} a.
Arguments Raise {A} e.

#[global] Instance outcome_ret : MRet outcome := λ A a, Ok a.
#[global] Instance outcome_bind : MBind outcome := λ A B f m,
  match m with Ok a => f a | Raise e => Raise e end.

Definition Qltb (x y : Q) : bool := (Qnum x * QDen y <? Qnum y * QDen x)%Z.
Definition Qleb (x y : Q) : bool := (Qnum x * QDen y <=? Qnum y * QDen x)%Z.

Module PyOps.

(** The number a value stands for in arithmetic and comparisons; [bool]
    is a subclass of [int].  [None] where Python raises [TypeError]. *)
Definition as_number (v : pyval) : option Q :=
  match v with
  | VNum q => Some q
  | VBool b => Some (if b then 1%Q else 0%Q)
  | _ => None
  end.

(** [key in v] for a string [key]. *)
Definition contains_key (key : string) (v : pyval) : outcome bool :=
  match v with
  | VDict d => Ok (bool_decide (is_Some (d !! key)))
  | VList l =>
      Ok (existsb (λ x, match x with VStr s => String.eqb s key | _ => false end) l)
  | VStr s => Ok (substring_of key s)
  | _ => Raise (Exn TypeError "argument is not iterable")
  end.

(** [v[key]] for a string [key]. *)
Definition getitem (v : pyval) (key : string) : outcome pyval :=
  match v with
  | VDict d =>
      match d !! key with
      | Some x => Ok x
      | None => Raise (Exn KeyError key)
      end
  | VList _ | VStr _ => Raise (Exn TypeError "indices must be integers")
  | _ => Raise (Exn TypeError "object is not subscriptable")
  end.

(** [v[0]] *)
Definition getitem0 (v : pyval) : outcome pyval :=
  match v with
  | VList (x :: _) => Ok x
  | VList [] => Raise (Exn IndexError "list index out of range")
  | VStr (String c _) => Ok (VStr (String c ""))
  | VStr EmptyString => Raise (Exn IndexError "string index out of range")
  | VDict _ => Raise (Exn KeyError "0")
  | _ => Raise (Exn TypeError "object is not subscriptable")
  end.

(** [len(v)] *)
Definition py_len (v : pyval) : outcome Z :=
  match v with
  | VList l => Ok (Z.of_nat (length l))
  | VDict d => Ok (Z.of_nat (size d))
  | VStr s => Ok (len s)
  | _ => Raise (Exn TypeError "object has no len()")
  end.

(** [v.strip()] *)
Definition strip_method (v : pyval) : outcome string :=
  match v with
  | VStr s => Ok (strip s)
  | _ => Raise (Exn AttributeError "object has no attribute 'strip'")
  end.

(** [max(x, *l)] on numbers: the running maximum is replaced by a
    strictly greater item only. *)
Definition py_max (x : Q) (l : list Q) : Q :=
  fold_left (λ m y, if Qltb m y then y else m) l x.

End PyOps.

Import PyOps.

(** ** Configuration and agent state *)

(** [SecurityConfig]; the domain allow-list is never read. *)
Record SecurityConfig := {
  max_prompt_length : Z;
  max_tokens : Z;
  rate_limit_requests : Z;
  rate_limit_window : Z;
}.

(** [ModelConfig]; the temperature range only feeds the random sampling
    of the request and is left out. *)
Record ModelConfig := {
  api_key : string;
  base_url : string;
  models : list string;
  review_model : string;
  timeout : Z;
  max_retries : Z;
}.

(** One entry of [suspicious_patterns]: the source text of the regular
    expression, and the literals of which it is the case-insensitive
    alternation. *)
Record Pattern := {
  pattern_source : string;
  pattern_literals : list string;
}.

(** The attributes of [SelfLearningAIAgent] that the code reads or
    writes after construction. *)
Record Agent := {
  config : ModelConfig;
  security_config : SecurityConfig;
  num_candidates : Z;
  improvement_threshold : Q;
  quality_milestones : list Q;
  request_timestamps : list Q;
  suspicious_patterns : list Pattern;
  circuit_state : gmap string string;
}.

Definition with_request_timestamps (ts : list Q) (a : Agent) : Agent :=
  {| config := config a; security_config := security_config a;
     num_candidates := num_candidates a;
     improvement_threshold := improvement_threshold a;
     quality_milestones := quality_milestones a;
     request_timestamps := ts;
     suspicious_patterns := suspicious_patterns a;
     circuit_state := circuit_state a |}.

Definition with_quality_milestones (ms : list Q) (a : Agent) : Agent :=
  {| config := config a; security_config := security_config a;
     num_candidates := num_candidates a;
     improvement_threshold := improvement_threshold a;
     quality_milestones := ms;
     request_timestamps := request_timestamps a;
     suspicious_patterns := suspicious_patterns a;
     circuit_state := circuit_state a |}.

(** The pattern list of the constructor. *)
Definition default_patterns : list Pattern :=
  [ {| pattern_source := "(?i)(sudo|rm -rf|chmod|passwd|ssh-key)";
       pattern_literals := ["sudo"; "rm -rf"; "chmod"; "passwd"; "ssh-key"] |};
    {| pattern_source := "(?i)(import os|import subprocess|__import__)";
       pattern_literals := ["import os"; "import subprocess"; "__import__"] |};
    {| pattern_source := "(?i)(system|exec|eval|compile|execfile)";
       pattern_literals := ["system"; "exec"; "eval"; "compile"; "execfile"] |};
    {| pattern_source := "(?i)(\.\./|~/|/etc/|/bin/|/var/)";
       pattern_literals := ["../"; "~/"; "/etc/"; "/bin/"; "/var/"] |} ].

(** [SelfLearningAIAgent.__init__] *)
Definition __init__ (config : ModelConfig) (security_config : SecurityConfig)
    (num_candidates : Z) (improvement_threshold : Q) : Agent :=
  {| config := config;
     security_config := security_config;
     num_candidates := Z.min num_candidates (Z.of_nat (length (models config)));
     improvement_threshold := improvement_threshold;
     quality_milestones := [];
     request_timestamps := [];
     suspicious_patterns := default_patterns;
     circuit_state :=
       foldl (λ st model, <[model := "closed"]> st) ∅
             (models config ++ [review_model config]) |}.

(** ** The environment and the world *)

(** The JSON body of one request to [/chat/completions]; the sampled
    temperature is left out. *)
Record request := {
  rq_model : string;
  rq_content : string;
  rq_max_tokens : Z;
}.

(** What one [session.post] comes back with: a response with its status,
    [resp.text()] and [resp.json()]; a timeout; or another failure of
    the transport. *)
Inductive reply :=
| Response (status : Z) (body : string) (json : outcome pyval)
| TimedOut
| Failed (e : exn).

(** Everything outside the repository.
    - [clock k] is the [k]-th reading of [time.time()];
    - [backend c i rq] answers attempt [i] of the [c]-th gateway call;
    - [permutation] is [np.random.permutation];
    - [json_loads] is [json.loads] on a text delimited by braces: the
      decoded object, or [None] for [JSONDecodeError]. *)
Record Env := {
  clock : nat → Q;
  backend : nat → nat → request → reply;
  permutation : list string → list string;
  json_loads : string → option dict;
}.

Inductive event :=
| EvPost (call attempt : nat) (rq : request)
| EvSleep (seconds : Z)
| EvLogError (error_type error_msg : string)
| EvLogEvent (event_type : string).

Record World := {
  agent : Agent;
  ticks : nat;
  calls : nat;
  trace : list event;
}.

(** Computations that may change the world and may raise. *)
Definition Py (A : Type) : Type := World → outcome A * World.

#[global] Instance Py_ret : MRet Py := λ A a w, (Ok a, w).
#[global] Instance Py_bind : MBind Py := λ A B f m w,
  match m w with
  | (Ok a, w') => f a w'
  | (Raise e, w') => (Raise e, w')
  end.

Definition raise {A} (e : exn) : Py A := λ w, (Raise e, w).

Definition lift {A} (o : outcome A) : Py A := λ w, (o, w).

Definition get_agent : Py Agent := λ w, (Ok (agent w), w).

Definition modify_agent (f : Agent → Agent) : Py unit := λ w,
  (Ok (), {| agent := f (agent w); ticks := ticks w;
             calls := calls w; trace := trace w |}).

Definition emit (ev : event) : Py unit := λ w,
  (Ok (), {| agent := agent w; ticks := ticks w;
             calls := calls w; trace := trace w ++ [ev] |}).

(** [try: body except Exception as e: handler e] *)
Definition try_except {A} (body : Py A) (handler : exn → Py A) : Py A := λ w,
  match body w with
  | (Ok a, w') => (Ok a, w')
  | (Raise e, w') => handler e w'
  end.

(** One awaitable of [asyncio.gather(..., return_exceptions=True)]. *)
Definition capture {A} (m : Py A) : Py (outcome A) := λ w,
  let '(o, w') := m w in (Ok o, w').

(** [await asyncio.gather] of [tasks], with [return_exceptions=True] *)
Fixpoint gather {A} (tasks : list (Py A)) : Py (list (outcome A)) :=
  match tasks with
  | [] => mret []
  | t :: ts => r ← capture t; rs ← gather ts; mret (r :: rs)
  end.

Definition log_error (error_type error_msg : string) : Py unit :=
  emit (EvLogError error_type error_msg).

Definition log_event (event_type : string) : Py unit :=
  emit (EvLogEvent event_type).

(** [await asyncio.sleep(seconds)] *)
Definition sleep (seconds : Z) : Py unit := emit (EvSleep seconds).

Section WithEnv.

Variable env : Env.

(** [time.time()] *)
Definition time_time : Py Q := λ w,
  (Ok (clock env (ticks w)),
   {| agent := agent w; ticks := S (ticks w);
      calls := calls w; trace := trace w |}).

(** The number of gateway calls made before this one. *)
Definition next_call : Py nat := λ w,
  (Ok (calls w),
   {| agent := agent w; ticks := ticks w;
      calls := S (calls w); trace := trace w |}).

(** ** Prompt guard *)

Definition pattern_search (p : Pattern) (prompt : string) : bool :=
  existsb (λ lit, search_literal_i lit prompt) (pattern_literals p).

(** [_validate_prompt] *)
Definition _validate_prompt (a : Agent) (prompt : string) : outcome bool :=
  if max_prompt_length (security_config a) <? len prompt then
    Raise (Exn PromptInjectionException
             ("Prompt too long: " +:+ pretty (len prompt)))
  else
    match List.find (λ p, pattern_search p prompt) (suspicious_patterns a) with
    | Some pattern =>
        Raise (Exn PromptInjectionException
                 ("Malicious pattern detected: " +:+ pattern_source pattern))
    | None => Ok true
    end.

(** [_sanitize_prompt], on characters. *)
Definition sanitize_chars (sc : SecurityConfig) (prompt : list ascii) : list ascii :=
  let sanitized := strip_tags prompt in
  let sanitized := collapse_newlines sanitized in
  py_take (max_prompt_length sc) sanitized.

(** [_sanitize_prompt] *)
Definition _sanitize_prompt (a : Agent) (prompt : string) : string :=
  string_of_list_ascii
    (sanitize_chars (security_config a) (list_ascii_of_string prompt)).

(** The timestamps kept by [_check_rate_limit] at time [now]. *)
Definition prune (a : Agent) (now : Q) : list Q :=
  List.filter
    (λ ts, Qltb (now - ts) (inject_Z (rate_limit_window (security_config a))))
    (request_timestamps a).

(** [_check_rate_limit] *)
Definition _check_rate_limit : Py unit :=
  now ← time_time;
  a ← get_agent;
  let kept := prune a now in
  modify_agent (with_request_timestamps kept);;
  if rate_limit_requests (security_config a) <=? Z.of_nat (length kept) then
    raise (Exn SecurityException "Rate limit exceeded")
  else
    modify_agent (with_request_timestamps (kept ++ [now])).

(** ** Backend gateway *)

(** The dictionary [_call_openrouter] returns: on success the text, the
    model and the request id; after the loop the empty text and the
    [error] entry. *)
Record GatewayResult := {
  text : string;
  model : string;
  request_id : option pyval;
  error : option string;
}.

Inductive loop_step :=
| Continue
| Return (r : GatewayResult).

(** Whether this is the last iteration of [range(max_retries)]. *)
Definition final_attempt (a : Agent) (attempt : nat) : bool :=
  Z.of_nat attempt =? max_retries (config a) - 1.

(** The body of [async with session.post(...) as resp], for a response
    that arrived. *)
Definition on_response (a : Agent) (model : string) (attempt : nat)
    (status : Z) (body : string) (json : outcome pyval) : Py loop_step :=
  if status =? 429 then
    let wait_time := 2 ^ Z.of_nat attempt in
    log_event "rate_limit_encountered";;
    sleep wait_time;;
    mret Continue
  else if negb (status =? 200) then
    let error_text := body in
    log_error "model_request_failed"
      ("HTTP " +:+ pretty status +:+ ": " +:+ error_text);;
    if final_attempt a attempt then
      raise (Exn ClientError ("HTTP " +:+ pretty status +:+ ": " +:+ error_text))
    else
      sleep (1 * (Z.of_nat attempt + 1));;
      mret Continue
  else
    result ← lift json;
    has_choices ← lift (contains_key "choices" result);
    no_choice ←
      (if negb has_choices then mret true
       else n ← lift (getitem result "choices" ≫= py_len); mret (n =? 0));
    if no_choice : bool then
      log_error "invalid_model_response" "Missing choices in response";;
      raise (Exn ValueError "Invalid model response format")
    else
      text ← lift (choices ← getitem result "choices";
                   first ← getitem0 choices;
                   message ← getitem first "message";
                   content ← getitem message "content";
                   strip_method content);
      id ← lift (match result with
                 | VDict d => Ok (default (VStr "unknown") (d !! "id"))
                 | _ => Raise (Exn AttributeError "object has no attribute 'get'")
                 end);
      mret (Return {| text := text; model := model;
                      request_id := Some id; error := None |}).

(** One iteration of the retry loop: the [try] block and its two
    handlers. *)
Definition attempt_once (a : Agent) (model : string) (rq : request)
    (call attempt : nat) : Py loop_step :=
  try_except
    (emit (EvPost call attempt rq);;
     match backend env call attempt rq with
     | Response status body json => on_response a model attempt status body json
     | TimedOut => raise (Exn TimeoutError "")
     | Failed e => raise e
     end)
    (λ e,
       match exn_class_of e with
       | TimeoutError =>
           log_error "model_timeout"
             ("Timeout on attempt " +:+ pretty (Z.of_nat attempt + 1));;
           if final_attempt a attempt then raise e
           else sleep (1 * (Z.of_nat attempt + 1));; mret Continue
       | _ =>
           log_error "model_communication_error" (exn_message e);;
           if final_attempt a attempt then raise e
           else sleep (1 * (Z.of_nat attempt + 1));; mret Continue
       end).

(** [for attempt in range(max_retries)], then the statement after the
    loop. *)
Fixpoint attempts (a : Agent) (model : string) (rq : request) (call : nat)
    (todo : list nat) : Py GatewayResult :=
  match todo with
  | [] =>
      mret {| text := ""; model := model; request_id := None;
              error := Some "All retries failed" |}
  | attempt :: rest =>
      step ← attempt_once a model rq call attempt;
      match step with
      | Return r => mret r
      | Continue => attempts a model rq call rest
      end
  end.

(** [_call_openrouter] (the session is left out) *)
Definition _call_openrouter (model prompt : string) (max_tokens' : Z)
    : Py GatewayResult :=
  call ← next_call;
  _check_rate_limit;;
  a ← get_agent;
  lift (_validate_prompt a prompt);;
  let sanitized_prompt := _sanitize_prompt a prompt in
  let payload :=
    {| rq_model := model;
       rq_content := sanitized_prompt;
       rq_max_tokens := Z.min max_tokens' (max_tokens (security_config a)) |} in
  attempts a model payload call (seq 0 (Z.to_nat (max_retries (config a)))).

(** ** Prompts *)

Definition quote (s : string) : string := String DQ (s +:+ String DQ "").

(** [_build_generation_prompt] *)
Definition _build_generation_prompt (task : string) : string :=
  "You are a specialist AI competing to provide the BEST solution. Solve rigorously:

" +:+ task +:+ "

Requirements:
- Provide factual, accurate information
- Use logical reasoning with clear steps
- Offer novel insights beyond obvious answers
- Be concise but comprehensive
- Include actionable implementation details

Your solution will be peer-reviewed against other AIs. The best solution wins.".

Definition review_rubric : string :=
  "

Apply THIS scoring rubric rigorously:

1. Factual Accuracy (0-10): Verify all facts. Deduct for errors.
2. Reasoning Depth (0-10): Evaluate logical completeness.
3. Novelty/Value (0-10): Assess originality.
4. Conciseness (0-10): Evaluate clarity and implementability.

SCORING FORMULA: Weighted average (Accuracy:40%, Depth:30%, Novelty:20%, Conciseness:10%)

CRITICAL FLAW: Identify ONE major flaw or " +:+ quote "NONE" +:+ " if perfect.
IMPROVED SOLUTION: Rewrite addressing the flaw.

Respond ONLY with valid JSON:
{
  " +:+ quote "score" +:+ ": X.X,
  " +:+ quote "flaw" +:+ ": " +:+ quote "specific flaw or NONE" +:+ ",
  " +:+ quote "improved" +:+ ": " +:+ quote "complete improved solution" +:+ "
}".

(** [_build_review_prompt] *)
Definition _build_review_prompt (task solution : string) : string :=
  "TASK: " +:+ task +:+ "

CANDIDATE SOLUTION:
" +:+ solution +:+ review_rubric.

(** ** Candidate generation *)

(** [_get_active_models] *)
Definition _get_active_models (a : Agent) : list string :=
  List.filter
    (λ model, String.eqb (default "closed" (circuit_state a !! model)) "closed")
    (models (config a)).

(** The loop of [_generate_candidates] over the gathered results. *)
Fixpoint valid_results (results : list (outcome GatewayResult))
    : Py (list GatewayResult) :=
  match results with
  | [] => mret []
  | Raise e :: rest =>
      log_error "candidate_generation_failed" (exn_message e);;
      valid_results rest
  | Ok result :: rest =>
      if nonblank (text result)
      then (valid ← valid_results rest; mret (result :: valid))
      else valid_results rest
  end.

(** The coroutines [_generate_candidates] creates: one per model among
    the first [num_candidates] of the permuted active models. *)
Definition generation_tasks (a : Agent) (task : string)
    : list (Py GatewayResult) :=
  map (λ model, _call_openrouter model (_build_generation_prompt task) 2048)
      (py_take (num_candidates a) (permutation env (_get_active_models a))).

(** [_generate_candidates] *)
Definition _generate_candidates (task : string) : Py (list GatewayResult) :=
  a ← get_agent;
  let active_models := _get_active_models a in
  match active_models with
  | [] =>
      log_error "no_active_models" "All models are unavailable";;
      raise (Exn RuntimeError "No available models")
  | _ =>
      results ← gather (generation_tasks a task);
      valid_results results
  end.

(** ** Peer review *)

(** The first match of a pattern anchored by [m], scanning left to
    right. *)
Fixpoint re_search {A} (m : list ascii → option A) (s : list ascii) : option A :=
  match m s with
  | Some x => Some x
  | None => match s with [] => None | _ :: r => re_search m r end
  end.

(** The match of [\{.*\}] under [re.DOTALL]: from the first opening
    brace to the last closing brace after it. *)
Definition brace_span (s : list ascii) : option (list ascii) :=
  i ← index_of "{"%char s;
  let from := drop i s in
  k ← index_of "}"%char (rev from);
  Some (take (length from - k) from).

Definition is_digit (c : ascii) : bool :=
  let n := nat_of_ascii c in ((48 <=? n) && (n <=? 57))%nat.

Fixpoint take_while (p : ascii → bool) (s : list ascii) : list ascii :=
  match s with
  | c :: r => if p c then c :: take_while p r else []
  | [] => []
  end.

(** The text after the quoted [key], a colon and white space, when [s]
    starts that way: the common prefix of the three fallback patterns. *)
Definition after_key (key : string) (s : list ascii) : option (list ascii) :=
  let lit := list_ascii_of_string (quote key +:+ ":") in
  if starts_with lit s then Some (lstrip (drop (length lit) s)) else None.

(** The score pattern anchored at the start: the prefix for the key
    score, one or more digits, an optional point, further digits.
    Group 1 is returned as the digits before and after the point. *)
Definition match_score (s : list ascii) : option (list ascii * list ascii) :=
  r ← after_key "score" s;
  let whole := take_while is_digit r in
  match whole with
  | [] => None
  | _ =>
      match drop (length whole) r with
      | "."%char :: r' => Some (whole, take_while is_digit r')
      | _ => Some (whole, [])
      end
  end.

(** The flaw and improved patterns anchored at the start: the prefix
    for [key], a double quote, the characters up to the next double
    quote (group 1), that quote. *)
Definition match_quoted (key : string) (s : list ascii) : option string :=
  r ← after_key key s;
  match r with
  | c :: r' =>
      if Ascii.eqb c DQ then
        i ← index_of DQ r'; Some (string_of_list_ascii (take i r'))
      else None
  | [] => None
  end.

(** The value of a run of decimal digits. *)
Definition digits_value (ds : list ascii) : Z :=
  fold_left (λ n c, 10 * n + (Z.of_nat (nat_of_ascii c) - 48)) ds 0.

(** [float] of the digits before and after the point. *)
Definition float_of_digits (whole frac : list ascii) : Q :=
  (inject_Z (digits_value whole)
   + inject_Z (digits_value frac) / inject_Z (10 ^ Z.of_nat (length frac)))%Q.

(** [_parse_review_response] *)
Definition _parse_review_response (response_text : string) : dict :=
  let chars := list_ascii_of_string response_text in
  let json_match := brace_span chars in
  match json_match ≫= (λ group, json_loads env (string_of_list_ascii group)) with
  | Some data => data
  | None =>
      let score_match := re_search match_score chars in
      let flaw_match := re_search (match_quoted "flaw") chars in
      let improved_match := re_search (match_quoted "improved") chars in
      <["score" :=
          VNum (match score_match with
                | Some (whole, frac) => float_of_digits whole frac
                | None => 5
                end)]>
      (<["flaw" := VStr (default "NONE" flaw_match)]>
      (<["improved" := VStr (default "" improved_match)]> ∅))
  end.

(** [_validate_review_scores]; comparing [0] with a value that is not a
    number raises [TypeError]. *)
Definition _validate_review_scores (review_data : dict) : outcome bool :=
  let score := default (VNum 0) (review_data !! "score") in
  match as_number score with
  | Some q => Ok (Qleb 0 q && Qleb q 10)
  | None => Raise (Exn TypeError "'<=' not supported between instances")
  end.

(** The second loop of [_peer_review], over
    [zip(candidates, review_results)]. *)
Fixpoint review_loop (a : Agent)
    (pairs : list (GatewayResult * outcome GatewayResult))
    (reviews : list dict) : Py (list dict) :=
  match pairs with
  | [] => mret reviews
  | (candidate, Raise e) :: rest =>
      log_error "review_failed" (exn_message e);;
      review_loop a rest reviews
  | (candidate, Ok review_result) :: rest =>
      let attempt : outcome (option dict) :=
        let review_data := _parse_review_response (text review_result) in
        let review_data :=
          <["reviewer" := VStr (review_model (config a))]>
          (<["model" := VStr (model candidate)]>
          (<["original" := VStr (text candidate)]> review_data)) in
        ok ← _validate_review_scores review_data;
        mret (if ok : bool then Some review_data else None) in
      match attempt with
      | Ok (Some review_data) => review_loop a rest (reviews ++ [review_data])
      | Ok None => review_loop a rest reviews
      | Raise e =>
          match exn_class_of e with
          | JSONDecodeError | KeyError =>
              log_error "review_parsing_failed" (exn_message e);;
              review_loop a rest reviews
          | _ => raise e
          end
      end
  end.

(** The coroutines [_peer_review] creates: one per candidate whose
    stripped text is not empty. *)
Definition review_tasks (a : Agent) (task : string)
    (candidates : list GatewayResult) : list (Py GatewayResult) :=
  map (λ candidate,
         _call_openrouter (review_model (config a))
           (_build_review_prompt task (text candidate)) 1024)
      (List.filter (λ candidate, nonblank (text candidate)) candidates).

(** [_peer_review] *)
Definition _peer_review (task : string) (candidates : list GatewayResult)
    : Py (list dict) :=
  a ← get_agent;
  review_results ← gather (review_tasks a task candidates);
  review_loop a (zip candidates review_results) [].

(** ** Selection and learning tracker *)

(** [review.get("score", 0)] *)
Definition score_of (review : dict) : pyval :=
  default (VNum 0) (review !! "score").

(** The sort key of a review, as a number. *)
Definition score_key (review : dict) : outcome Q :=
  match as_number (score_of review) with
  | Some q => Ok q
  | None => Raise (Exn TypeError "'<' not supported between instances")
  end.

(** Insertion in a list sorted by descending key, in front of the first
    element whose key is not greater. *)
Fixpoint insert_desc {A} (x : Q * A) (l : list (Q * A)) : list (Q * A) :=
  match l with
  | [] => [x]
  | y :: r => if Qleb (fst y) (fst x) then x :: y :: r else y :: insert_desc x r
  end.

(** [list.sort(key=..., reverse=True)] on keyed elements: descending,
    elements with equal keys keep their order. *)
Definition sort_desc {A} (l : list (Q * A)) : list (Q * A) :=
  foldr insert_desc [] l.

(** [reviews.sort(key=lambda x: x.get("score", 0), reverse=True)] *)
Definition sort_reviews (reviews : list dict) : outcome (list (Q * dict)) :=
  keyed ← mapM (λ review, q ← score_key review; mret (q, review)) reviews;
  mret (sort_desc keyed).

(** [max(candidates, key=lambda x: len(x.get("text", "")))] on
    [first :: others]: the first candidate of maximal length. *)
Definition longest (first : GatewayResult) (others : list GatewayResult)
    : GatewayResult :=
  fold_left (λ best x, if len (text best) <? len (text x) then x else best)
            others first.

Definition epsilon : Q := 1 # 100000.

(** [_should_trigger_improvement] *)
Definition _should_trigger_improvement (a : Agent) (current_score : Q)
    : outcome bool :=
  match quality_milestones a with
  | [] => Ok true
  | _ =>
      match py_last 10 (quality_milestones a) with
      | [] => Raise (Exn ValueError "max() arg is an empty sequence")
      | m :: ms =>
          let best_previous := py_max m ms in
          let denominator := (best_previous + epsilon)%Q in
          if Qeq_bool denominator 0 then
            Raise (Exn ZeroDivisionError "float division by zero")
          else
            let improvement :=
              ((current_score - best_previous) / denominator)%Q in
            Ok (Qltb (improvement_threshold a) improvement
                && Qltb 5 current_score)
      end
  end.

(** ** solve *)

Definition placeholder_key : string := "your-openrouter-api-key-here".

Definition ready_result : dict :=
  list_to_map
    [("solution", VStr "Emergent Universal Key is ready! The AI agent is configured and working.");
     ("score", VNum 0);
     ("model", VStr "system");
     ("processing_time", VNum 0);
     ("confidence", VStr "ready");
     ("info", VStr "Using Emergent Universal Key for testing (GPT-4o, Claude 3.5 Sonnet, Gemini 2.0)")].

Definition no_candidates_result (processing_time : Q) : dict :=
  list_to_map
    [("solution", VStr "I apologize, but I'm unable to generate a response at the moment. Please try again.");
     ("score", VNum 0);
     ("model", VStr "fallback");
     ("processing_time", VNum processing_time);
     ("confidence", VStr "none")].

Definition no_reviews_result (best_candidate : GatewayResult)
    (processing_time : Q) : dict :=
  list_to_map
    [("solution", VStr (text best_candidate));
     ("score", VNum 5);
     ("model", VStr (model best_candidate));
     ("processing_time", VNum processing_time);
     ("confidence", VStr "low")].

Definition winner_result (winner : dict) (current_score : Q)
    (processing_time : Q) : dict :=
  list_to_map
    [("solution",
        default (default (VStr "") (winner !! "original")) (winner !! "improved"));
     ("score", score_of winner);
     ("model", default (VStr "unknown") (winner !! "model"));
     ("processing_time", VNum processing_time);
     ("flaw_corrected", default (VStr "NONE") (winner !! "flaw"));
     ("confidence", VStr (if Qltb 7 current_score then "high" else "medium"))].

Definition error_result (e : exn) (processing_time : Q) : dict :=
  list_to_map
    [("solution", VStr ("An error occurred: " +:+ exn_message e));
     ("score", VNum 0);
     ("model", VStr "error");
     ("processing_time", VNum processing_time);
     ("confidence", VStr "none");
     ("error", VStr (exn_message e))].

(** [solve] from the test [if not reviews] to the last [return] of the
    [try] block. *)
Definition solve_select (start_time : Q) (candidates : list GatewayResult)
    (reviews : list dict) : Py dict :=
  match reviews with
  | [] =>
      match candidates with
      | [] => raise (Exn ValueError "max() arg is an empty sequence")
      | first :: others =>
          let best_candidate := longest first others in
          now ← time_time;
          mret (no_reviews_result best_candidate (now - start_time))
      end
  | _ =>
      sorted ← lift (sort_reviews reviews);
      match sorted with
      | [] => raise (Exn IndexError "list index out of range")
      | (current_score, winner) :: _ =>
          a ← get_agent;
          trigger ← lift (_should_trigger_improvement a current_score);
          (if trigger : bool then
             modify_agent
               (with_quality_milestones (quality_milestones a ++ [current_score]))
           else mret ());;
          now ← time_time;
          let processing_time := (now - start_time)%Q in
          log_event "solution_generated";;
          mret (winner_result winner current_score processing_time)
      end
  end.

(** [solve] from the test [if not candidates] on. *)
Definition solve_review (task : string) (start_time : Q)
    (candidates : list GatewayResult) : Py dict :=
  match candidates with
  | [] =>
      now ← time_time;
      mret (no_candidates_result (now - start_time))
  | _ =>
      reviews ← _peer_review task candidates;
      solve_select start_time candidates reviews
  end.

(** The [try] block of [solve]. *)
Definition solve_body (task : string) (start_time : Q) : Py dict :=
  a ← get_agent;
  if String.eqb (api_key (config a)) ""
     || String.eqb (api_key (config a)) placeholder_key
  then mret ready_result
  else
    candidates ← _generate_candidates task;
    solve_review task start_time candidates.

(** The [except Exception] handler of [solve]. *)
Definition solve_handler (task : string) (start_time : Q) (e : exn) : Py dict :=
  log_error "solve_failed" (exn_message e);;
  now ← time_time;
  mret (error_result e (now - start_time)).

(** [solve] *)
Definition solve (task : string) : Py dict :=
  start_time ← time_time;
  try_except (solve_body task start_time) (solve_handler task start_time).

End WithEnv.

(** ** Notions used to state the properties *)

(** No suffix of [s] starts with a match of the pattern anchored by [m]. *)
Fixpoint match_free (m : list ascii → option nat) (s : list ascii) : Prop :=
  match s with
  | [] => True
  | c :: rest => m (c :: rest) = None ∧ match_free m rest
  end.

(** A text in which [<] can open no tag: it is followed at once by [>],
    or by no [>] at all. *)
Definition blocked (rest : list ascii) : Prop :=
  head rest = Some GT ∨ GT ∉ rest.

(** What a transformation of the text must satisfy to keep it free of
    tags: it adds no [>], and it leaves a leading [>] in place. *)
Definition tag_safe (f : list ascii → list ascii) : Prop :=
  (∀ s, GT ∉ s → GT ∉ f s) ∧
  (∀ r, f (GT :: r) = [] ∨ ∃ r', f (GT :: r) = GT :: r').

(** The world after [_check_rate_limit] read the clock and stored the
    timestamps [kept]. *)
Definition pruned_world (w : World) (kept : list Q) : World :=
  {| agent := with_request_timestamps kept (agent w);
     ticks := S (ticks w); calls := calls w; trace := trace w |}.

(** The outcomes of computations run one after the other, and the world
    they leave. *)
Fixpoint run_all {A} (tasks : list (Py A)) (w : World)
    : list (outcome A) * World :=
  match tasks with
  | [] => ([], w)
  | t :: ts =>
      let '(o, w1) := t w in
      let '(rs, w2) := run_all ts w1 in
      (o :: rs, w2)
  end.

Definition rate_limit_exceeded : exn :=
  Exn SecurityException "Rate limit exceeded".

(** The world after one reading of the clock. *)
Definition ticked (w : World) : World :=
  {| agent := agent w; ticks := S (ticks w);
     calls := calls w; trace := trace w |}.

(** The keys every result of [solve] carries. *)
Definition populated (result : dict) : Prop :=
  Forall (λ key, is_Some (result !! key))
         ["solution"; "score"; "model"; "processing_time"; "confidence"].

(** The results among gathered outcomes, and whether an outcome is an
    exception. *)
Definition successes {A} (outcomes : list (outcome A)) : list A :=
  omap (λ o, match o with Ok r => Some r | Raise _ => None end) outcomes.

Definition failed {A} (o : outcome A) : Prop :=
  match o with Ok _ => False | Raise _ => True end.

Definition no_available_models : exn :=
  Exn RuntimeError "No available models".

(** The world with further events in its trace. *)
Definition traced (w : World) (events : list event) : World :=
  {| agent := agent w; ticks := ticks w;
     calls := calls w; trace := trace w ++ events |}.

(** The attempts posted to the backend, as pairs of call and attempt. *)
Definition posts (events : list event) : list (nat * nat) :=
  omap (λ ev, match ev with
              | EvPost call attempt _ => Some (call, attempt)
              | _ => None
              end) events.

Definition invalid_format : exn :=
  Exn ValueError "Invalid model response format".

(** A decoded body without a usable [choices] entry: the key is absent,
    or its value has length zero. *)
Definition lacks_choices (result : dict) : Prop :=
  result !! "choices" = None
  ∨ ∃ choices, result !! "choices" = Some choices ∧ py_len choices = Ok 0.

(** The dictionary the review loop builds from a candidate and the text
    of its review result: the parsed fields and the back-references. *)
Definition annotated (env : Env) (a : Agent) (candidate : GatewayResult)
    (response_text : string) : dict :=
  <["reviewer" := VStr (review_model (config a))]>
  (<["model" := VStr (model candidate)]>
  (<["original" := VStr (text candidate)]>
     (_parse_review_response env response_text))).

(** The review a pair of the loop contributes, if any. *)
Definition review_of (env : Env) (a : Agent)
    (pair : GatewayResult * outcome GatewayResult) : option dict :=
  match pair.2 with
  | Raise _ => None
  | Ok review_result =>
      let review_data := annotated env a pair.1 (text review_result) in
      match _validate_review_scores review_data with
      | Ok true => Some review_data
      | _ => None
      end
  end.

(** The score of the pair's review, if there is one, is a number. *)
Definition numeric_score (env : Env) (a : Agent)
    (pair : GatewayResult * outcome GatewayResult) : Prop :=
  match pair.2 with
  | Raise _ => True
  | Ok review_result =>
      is_Some (as_number
                 (score_of (annotated env a pair.1 (text review_result))))
  end.

(** A review whose score is a number within the bounds. *)
Definition valid_review (review : dict) : Prop :=
  ∃ q, as_number (score_of review) = Some q ∧ (0 <= q)%Q ∧ (q <= 10)%Q.


(** The numeric score of a review (0 where the entry is no number). *)
Definition key_of (review : dict) : Q :=
  default 0%Q (as_number (score_of review)).

Definition keyed (reviews : list dict) : list (Q * dict) :=
  (λ review, (key_of review, review)) <$> reviews.

(** A keyed list in which every element is followed by elements of keys
    that are not greater. *)
Fixpoint descending {A} (l : list (Q * A)) : Prop :=
  match l with
  | [] => True
  | x :: r => Forall (λ y, (y.1 <= x.1)%Q) r ∧ descending r
  end.

(** ** The factory and sample worlds *)

(** [create_ai_agent] in a process environment that sets
    [OPENROUTER_API_KEY] to [key] and nothing else. *)
Definition create_ai_agent (key : string) : Agent :=
  __init__
    {| api_key := key;
       base_url := "https://llm.emergentagi.com/v1";
       models := ["gpt-4o"; "claude-3-5-sonnet-20241022"; "gemini-2.0-flash-exp"];
       review_model := "gpt-4o";
       timeout := 30;
       max_retries := 3 |}
    {| max_prompt_length := 4096; max_tokens := 4096;
       rate_limit_requests := 100; rate_limit_window := 60 |}
    3 (15 # 100).

(** The same agent with another quota and pattern list. *)
Definition tuned_agent (key : string) (quota : Z) (patterns : list Pattern)
    : Agent :=
  let a := create_ai_agent key in
  {| config := config a;
     security_config :=
       {| max_prompt_length := 4096; max_tokens := 4096;
          rate_limit_requests := quota; rate_limit_window := 60 |};
     num_candidates := num_candidates a;
     improvement_threshold := improvement_threshold a;
     quality_milestones := [];
     request_timestamps := [];
     suspicious_patterns := patterns;
     circuit_state := circuit_state a |}.

(** A world in which nothing happened yet. *)
Definition initial_world (a : Agent) : World :=
  {| agent := a; ticks := 0; calls := 0; trace := [] |}.

(** A chat completion whose first choice carries [content]. *)
Definition completion (content : pyval) : pyval :=
  VDict {[ "choices" :=
             VList [VDict {[ "message" := VDict {[ "content" := content ]} ]}] ]}.

(** An environment whose clock advances by one second per reading and
    whose backend answers every request with [answer]. *)
Definition steady_env (answer : nat → nat → request → reply) : Env :=
  {| clock := λ k, inject_Z (Z.of_nat k);
     backend := answer;
     permutation := λ l, l;
     json_loads := λ _, None |}.

Definition silent_env : Env := steady_env (λ _ _ _, TimedOut).

(** The agent of the factory after every circuit was opened. *)
Definition tripped_agent (key : string) : Agent :=
  let a := create_ai_agent key in
  {| config := config a;
     security_config := security_config a;
     num_candidates := num_candidates a;
     improvement_threshold := improvement_threshold a;
     quality_milestones := [];
     request_timestamps := [];
     suspicious_patterns := suspicious_patterns a;
     circuit_state := (λ _, "open") <$> circuit_state a |}.

(** A backend whose first answer is a JSON object without choices and
    whose later answers are proper completions. *)
Definition flaky_env : Env :=
  steady_env (λ call attempt rq,
    match attempt with
    | O => Response 200 "{}" (Ok (VDict ∅))
    | _ => Response 200 "" (Ok (completion (VStr "Paris")))
    end).

(** A backend that answers the first call, answers the second with
    blanks, and is silent afterwards. *)
Definition mixed_env : Env :=
  steady_env (λ call attempt rq,
    match call with
    | 0%nat => Response 200 "" (Ok (completion (VStr "Paris")))
    | 1%nat => Response 200 "" (Ok (completion (VStr "   ")))
    | _ => TimedOut
    end).

(** A backend that answers every request with the same text. *)
Definition echo_env (answer : string) : Env :=
  steady_env (λ _ _ _, Response 200 "" (Ok (completion (VStr answer)))).

Definition candidate (text model : string) : GatewayResult :=
  {| text := text; model := model;
     request_id := Some (VStr "unknown"); error := None |}.


Definition three_candidates : list GatewayResult :=
  [candidate "Paris" "gpt-4o";
   candidate "Lyon" "claude-3-5-sonnet-20241022";
   candidate "Nice" "gemini-2.0-flash-exp"].

(** The agent of the factory with two milestones on record. *)
Definition seasoned_agent : Agent :=
  with_quality_milestones [6%Q; 7%Q] (create_ai_agent "key").

(** A review as the loop leaves it. *)
Definition review (score : Q) (original model : string) : dict :=
  list_to_map
    [("score", VNum score); ("flaw", VStr "NONE");
     ("improved", VStr (original +:+ ", improved"));
     ("original", VStr original); ("model", VStr model);
     ("reviewer", VStr "gpt-4o")].

(** The reviews of the end-to-end scenario: scores 6.0, 9.0 and 7.5. *)
Definition three_reviews : list dict :=
  [review 6 "Paris" "gpt-4o";
   review 9 "Lyon" "claude-3-5-sonnet-20241022";
   review (15 # 2) "Nice" "gemini-2.0-flash-exp"].

(** ** Relations between the worlds before and after a computation *)

(** The world after [next_call]. *)
Definition called (w : World) : World :=
  {| agent := agent w; ticks := ticks w;
     calls := S (calls w); trace := trace w |}.

Definition is_post (ev : event) : bool :=
  match ev with EvPost _ _ _ => true | _ => false end.

(** Every run of [m] relates the world it starts in to the world it
    leaves. *)
Definition respects (R : World → World → Prop) {A} (m : Py A) : Prop :=
  ∀ w o w', m w = (o, w') → R w w'.

(** A relation that holds across the effects of the guard: logging and
    sleeping, reading the clock, numbering a call, and one rate-limit
    check. *)
Class Frame (env : Env) (R : World → World → Prop) : Prop := {
  frame_refl : ∀ w, R w w;
  frame_trans : ∀ w1 w2 w3, R w1 w2 → R w2 w3 → R w1 w3;
  frame_log : ∀ w ev, is_post ev = false → R w (traced w [ev]);
  frame_tick : ∀ w, R w (ticked w);
  frame_call : ∀ w, R w (called w);
  frame_check : respects R (_check_rate_limit env);
}.

(** A frame that also holds across a request to the backend. *)
Class PostFrame (env : Env) (R : World → World → Prop) : Prop := {
  post_frame :: Frame env R;
  frame_post : ∀ w call attempt rq, R w (traced w [EvPost call attempt rq]);
}.

(** Two worlds whose agents differ at most in the rate-limit window. *)
Definition same_but_window (w w' : World) : Prop :=
  ∃ ts, agent w' = with_request_timestamps ts (agent w).

(** The rate-limit window holds no more timestamps than the quota. *)
Definition window_within_quota (w : World) : Prop :=
  Z.of_nat (length (request_timestamps (agent w)))
  ≤ Z.max 0 (rate_limit_requests (security_config (agent w))).

(** The window stays within the quota if it was. *)
Definition keeps_window (w w' : World) : Prop :=
  same_but_window w w' ∧ (window_within_quota w → window_within_quota w').

(** No request was posted between the two worlds. *)
Definition quiet (w w' : World) : Prop :=
  posts (trace w') = posts (trace w).

(** The guard refuses the prompt. *)
Definition rejected (a : Agent) (prompt : string) : Prop :=
  ∃ e, _validate_prompt a prompt = Raise e.

(** The world after a gateway call that ended in the guard: the call
    was numbered, the clock read, the window replaced by [kept]. *)
Definition guarded_world (w : World) (kept : list Q) : World :=
  {| agent := with_request_timestamps kept (agent w);
     ticks := S (ticks w); calls := S (calls w); trace := trace w |}.

(** The answer of a reviewer whose score is a string. *)
Definition quoted_score : string :=
  "{" +:+ quote "score" +:+ ": " +:+ quote "9" +:+ "}".

(** A backend that answers every request with [quoted_score], and a
    decoder that knows this one document. *)
Definition quoted_score_env : Env :=
  {| clock := λ k, inject_Z (Z.of_nat k);
     backend := λ _ _ _, Response 200 "" (Ok (completion (VStr quoted_score)));
     permutation := λ l, l;
     json_loads := λ s, if String.eqb s quoted_score
                        then Some {[ "score" := VStr "9" ]} else None |}.

(* ===================================================================== *)
(** * Part II: properties                                                 *)
(* ===================================================================== *)

(** ** Regular-expression substitution *)

Section ReSub.

Variable m : list ascii → option nat.
Variable repl : list ascii.

Lemma re_sub_go_skip k s :
  re_sub_go m repl k s = re_sub m repl (drop k s).
Proof.
  revert k. induction s as [|c rest IH]; intros [|k]; simpl; done.
Qed.

Lemma re_sub_nil : re_sub m repl [] = [].
Proof. done. Qed.

Lemma re_sub_no_match c rest :
  m (c :: rest) = None →
  re_sub m repl (c :: rest) = c :: re_sub m repl rest.
Proof. unfold re_sub. simpl. by intros ->. Qed.

Lemma re_sub_match c rest k :
  m (c :: rest) = Some (S k) →
  re_sub m repl (c :: rest) = repl ++ re_sub m repl (drop k rest).
Proof. unfold re_sub at 1. simpl. intros ->. by rewrite re_sub_go_skip. Qed.

Lemma re_sub_match_free s : match_free m s → re_sub m repl s = s.
Proof.
  induction s as [|c rest IH]; [done|]. intros [Hm Hrest].
  rewrite re_sub_no_match; [|done]. by rewrite IH.
Qed.

Lemma match_free_drop k s : match_free m s → match_free m (drop k s).
Proof.
  revert k. induction s as [|c rest IH]; intros [|k]; simpl; try done.
  intros [_ H]. by apply IH.
Qed.

(** Every character of the result comes from the input or from the
    replacement. *)
Lemma re_sub_elem x s :
  x ∈ re_sub m repl s → x ∈ s ∨ x ∈ repl.
Proof.
  remember (length s) as n eqn:Hn. revert s Hn.
  induction (lt_wf n) as [n _ IH]. intros [|c rest] Hn; simpl in Hn.
  { rewrite re_sub_nil. set_solver. }
  destruct (m (c :: rest)) as [[|k]|] eqn:Hm.
  - unfold re_sub. simpl. rewrite Hm. fold (re_sub m repl rest).
    rewrite elem_of_cons. intros [->|H]; [set_solver|].
    apply (IH (length rest)) in H; [set_solver|lia|done].
  - rewrite (re_sub_match _ _ _ Hm), elem_of_app. intros [H|H]; [by right|].
    apply (IH (length (drop k rest))) in H; [|rewrite length_drop; lia|done].
    destruct H as [H|H]; [|by right]. left.
    apply elem_of_cons. right. by eapply subseteq_drop.
  - rewrite (re_sub_no_match _ _ Hm), elem_of_cons.
    intros [->|H]; [set_solver|].
    apply (IH (length rest)) in H; [set_solver|lia|done].
Qed.

End ReSub.

(** ** Sanitising is idempotent *)

Lemma index_of_None c s : index_of c s = None ↔ c ∉ s.
Proof.
  induction s as [|x r IH]; simpl.
  - split; [set_solver|done].
  - case_decide as Hx.
    + subst. split; [done|]. set_solver.
    + destruct (index_of c r) eqn:Hi; simpl.
      * split; [done|]. intros Hn. exfalso. apply Hn. apply elem_of_cons. right.
        destruct (decide (c ∈ r)) as [|Hc]; [done|]. by apply IH in Hc.
      * split; [|done]. intros _. rewrite not_elem_of_cons. split; [done|].
        by apply IH.
Qed.

Lemma match_tag_None c rest :
  match_tag (c :: rest) = None ↔ (c = LT → blocked rest).
Proof.
  unfold blocked. destruct rest as [|d r]; simpl.
  { split; [|done]. intros _ _. right. set_solver. }
  case_decide as Hc; [|by split].
  case_decide as Hd.
  { subst. split; [|done]. intros _ _. by left. }
  destruct (index_of GT r) eqn:Hi; simpl.
  - split; [done|]. intros H. destruct (H Hc) as [[=]|Hn]; [done|].
    assert (GT ∉ r) as Hr by set_solver. apply index_of_None in Hr. congruence.
  - split; [|done]. intros _ _. right. apply index_of_None in Hi. set_solver.
Qed.

Lemma match_free_tag_cons c rest :
  match_free match_tag (c :: rest) ↔
  (c = LT → blocked rest) ∧ match_free match_tag rest.
Proof.
  change (match_free match_tag (c :: rest))
    with (match_tag (c :: rest) = None ∧ match_free match_tag rest).
  by rewrite match_tag_None.
Qed.

Lemma tag_safe_blocked f rest : tag_safe f → blocked rest → blocked (f rest).
Proof.
  intros [Hno Hhd] [Hh|Hn]; [|right; by apply Hno].
  destruct rest as [|d r]; [done|]. simpl in Hh. injection Hh as ->.
  destruct (Hhd r) as [->|[r' ->]]; [right; set_solver|by left].
Qed.

Lemma strip_tags_no_GT s : GT ∉ s → GT ∉ strip_tags s.
Proof. intros Hn Hin. apply re_sub_elem in Hin. set_solver. Qed.

Lemma strip_tags_GT r : strip_tags (GT :: r) = GT :: strip_tags r.
Proof. unfold strip_tags. apply re_sub_no_match. by destruct r. Qed.

Lemma strip_tags_safe : tag_safe strip_tags.
Proof.
  split; [apply strip_tags_no_GT|].
  intros r. right. eexists. apply strip_tags_GT.
Qed.

Lemma GT_not_newline : GT ∉ five_newlines.
Proof. unfold five_newlines. simpl. set_solver. Qed.

Lemma collapse_newlines_safe : tag_safe collapse_newlines.
Proof.
  split.
  - intros s Hn Hin. apply re_sub_elem in Hin.
    destruct Hin as [|Hin]; [done|]. by apply GT_not_newline.
  - intros r. right. eexists. unfold collapse_newlines.
    by apply re_sub_no_match.
Qed.

Lemma take_safe k : tag_safe (take k).
Proof.
  split.
  - intros s Hn Hin. apply Hn. by eapply subseteq_take.
  - intros r. destruct k; [by left|right]. simpl. by eexists.
Qed.

(** The result of [strip_tags] holds no tag. *)
Lemma strip_tags_free s : match_free match_tag (strip_tags s).
Proof.
  remember (length s) as n eqn:Hn. revert s Hn.
  induction (lt_wf n) as [n _ IH]. intros [|c rest] Hn; simpl in Hn; [done|].
  destruct (match_tag (c :: rest)) as [[|k]|] eqn:Hm.
  - exfalso. destruct rest as [|d r]; [done|]. simpl in Hm.
    repeat case_decide; try done.
    destruct (index_of GT r); simpl in Hm; [|done]. injection Hm. lia.
  - unfold strip_tags. rewrite (re_sub_match _ _ _ _ _ Hm). simpl.
    apply (IH (length (drop k rest))); [rewrite length_drop; lia|done].
  - unfold strip_tags. rewrite (re_sub_no_match _ _ _ _ Hm).
    apply match_free_tag_cons. split.
    + intros Hc. apply (tag_safe_blocked _ _ strip_tags_safe).
      by apply match_tag_None in Hm.
    + apply (IH (length rest)); [lia|done].
Qed.

(** Collapsing newlines keeps a text free of tags. *)
Lemma collapse_newlines_tag_free s :
  match_free match_tag s → match_free match_tag (collapse_newlines s).
Proof.
  remember (length s) as n eqn:Hn. revert s Hn.
  induction (lt_wf n) as [n _ IH]. intros [|c rest] Hn Hfree; simpl in Hn; [done|].
  destruct (match_newlines (c :: rest)) as [[|k]|] eqn:Hm.
  - exfalso. unfold match_newlines in Hm. case_decide as Hk; [|done].
    assert (run_length NL (c :: rest) = 0%nat) as E by congruence.
    rewrite E in Hk. lia.
  - unfold collapse_newlines. rewrite (re_sub_match _ _ _ _ _ Hm).
    assert (match_free match_tag (re_sub match_newlines five_newlines (drop k rest))) as Hrec.
    { apply (IH (length (drop k rest))); [rewrite length_drop; lia|done|].
      apply match_free_drop. by destruct Hfree. }
    unfold five_newlines at 1; cbn [replicate app].
    by do 5 (apply match_free_tag_cons; split; [intros [=]|]).
  - unfold collapse_newlines. rewrite (re_sub_no_match _ _ _ _ Hm).
    apply match_free_tag_cons in Hfree. destruct Hfree as [Hc Hrest].
    apply match_free_tag_cons. split.
    + intros ->. by apply (tag_safe_blocked _ _ collapse_newlines_safe), Hc.
    + by apply (IH (length rest)); [lia|done|].
Qed.

(** Truncation keeps a text free of tags. *)
Lemma take_tag_free k s :
  match_free match_tag s → match_free match_tag (take k s).
Proof.
  revert k. induction s as [|c rest IH]; intros [|k]; try done.
  intros Hfree. apply match_free_tag_cons in Hfree. destruct Hfree as [Hc Hrest].
  change (take (S k) (c :: rest)) with (c :: take k rest).
  apply match_free_tag_cons. split; [|by apply IH].
  intros ->. by apply (tag_safe_blocked _ _ (take_safe k)), Hc.
Qed.

Lemma run_length_cons_eq c s : run_length c (c :: s) = S (run_length c s).
Proof. simpl. by rewrite decide_True. Qed.

Lemma run_length_cons_ne c x s : x ≠ c → run_length c (x :: s) = 0%nat.
Proof. intros. simpl. by rewrite decide_False. Qed.

Lemma match_newlines_None s :
  match_newlines s = None ↔ (run_length NL s < 10)%nat.
Proof. unfold match_newlines. case_decide; split; (done || lia). Qed.

Lemma match_newlines_Some s k :
  match_newlines s = Some k → k = run_length NL s ∧ (10 ≤ k)%nat.
Proof. unfold match_newlines. case_decide; [|done]. intros [= <-]. done. Qed.

Lemma match_free_newlines_cons c s :
  match_free match_newlines (c :: s) ↔
  (run_length NL (c :: s) < 10)%nat ∧ match_free match_newlines s.
Proof.
  change (match_free match_newlines (c :: s))
    with (match_newlines (c :: s) = None ∧ match_free match_newlines s).
  by rewrite match_newlines_None.
Qed.

Lemma run_length_drop c s : run_length c (drop (run_length c s) s) = 0%nat.
Proof.
  induction s as [|x r IH]; [done|]. simpl.
  case_decide; [done|]. simpl. by rewrite decide_False.
Qed.

Lemma run_length_take c k s : (run_length c (take k s) ≤ run_length c s)%nat.
Proof.
  revert k. induction s as [|x r IH]; intros [|k]; simpl; try lia.
  case_decide; [|lia]. specialize (IH k). lia.
Qed.

(** Short runs of newlines are left as they are. *)
Lemma collapse_newlines_run s :
  (run_length NL s < 10)%nat →
  run_length NL (collapse_newlines s) = run_length NL s.
Proof.
  induction s as [|c rest IH]; [done|]. intros Hrun.
  unfold collapse_newlines.
  rewrite re_sub_no_match by by apply match_newlines_None.
  fold collapse_newlines. destruct (decide (c = NL)) as [->|Hc].
  - rewrite !run_length_cons_eq in *. rewrite IH; [done|lia].
  - by rewrite !run_length_cons_ne.
Qed.

Lemma run_length_replicate c j s :
  run_length c (replicate j c ++ s) = (j + run_length c s)%nat.
Proof.
  induction j as [|j IH]; [done|].
  cbn [replicate app]. by rewrite run_length_cons_eq, IH.
Qed.

Lemma newlines_prefix_free j s :
  (j + run_length NL s < 10)%nat →
  match_free match_newlines s →
  match_free match_newlines (replicate j NL ++ s).
Proof.
  intros Hj Hs. induction j as [|j IH]; [done|].
  cbn [replicate app]. apply match_free_newlines_cons. split; [|apply IH; lia].
  rewrite run_length_cons_eq, run_length_replicate. lia.
Qed.

(** The result of [collapse_newlines] holds no run of ten newlines. *)
Lemma collapse_newlines_free s :
  match_free match_newlines (collapse_newlines s).
Proof.
  remember (length s) as n eqn:Hn. revert s Hn.
  induction (lt_wf n) as [n _ IH]. intros [|c rest] Hn; simpl in Hn; [done|].
  destruct (match_newlines (c :: rest)) as [[|k]|] eqn:Hm.
  - apply match_newlines_Some in Hm. lia.
  - unfold collapse_newlines. rewrite (re_sub_match _ _ _ _ _ Hm).
    fold collapse_newlines.
    assert (match_free match_newlines (collapse_newlines (drop k rest))) as Hrec.
    { apply (IH (length (drop k rest))); [rewrite length_drop; lia|done]. }
    assert (run_length NL (collapse_newlines (drop k rest)) = 0%nat) as Hzero.
    { apply match_newlines_Some in Hm. destruct Hm as [Hk _].
      change (drop k rest) with (drop (S k) (c :: rest)).
      rewrite Hk, collapse_newlines_run; rewrite run_length_drop; [done|lia]. }
    apply newlines_prefix_free; [rewrite Hzero; lia|done].
  - unfold collapse_newlines. rewrite (re_sub_no_match _ _ _ _ Hm).
    fold collapse_newlines.
    apply match_free_newlines_cons. split; [|apply (IH (length rest)); [lia|done]].
    apply match_newlines_None in Hm.
    destruct (decide (c = NL)) as [->|Hc]; [|rewrite run_length_cons_ne; [lia|done]].
    rewrite run_length_cons_eq in *.
    rewrite collapse_newlines_run; lia.
Qed.

(** Truncation creates no run of ten newlines. *)
Lemma take_newline_free k s :
  match_free match_newlines s → match_free match_newlines (take k s).
Proof.
  revert k. induction s as [|c rest IH]; intros [|k]; try done.
  intros Hfree. apply match_free_newlines_cons in Hfree.
  destruct Hfree as [Hrun Hrest].
  change (take (S k) (c :: rest)) with (c :: take k rest).
  apply match_free_newlines_cons. split; [|by apply IH].
  pose proof (run_length_take NL (S k) (c :: rest)) as Hle.
  change (take (S k) (c :: rest)) with (c :: take k rest) in Hle. lia.
Qed.

Lemma py_take_nonneg {A} n (l : list A) :
  0 ≤ n → py_take n l = take (Z.to_nat n) l.
Proof. intros Hn. unfold py_take. by rewrite (proj2 (Z.leb_le 0 n) Hn). Qed.

Lemma sanitize_chars_fixed sc s :
  0 ≤ max_prompt_length sc →
  match_free match_tag s → match_free match_newlines s →
  (length s ≤ Z.to_nat (max_prompt_length sc))%nat →
  sanitize_chars sc s = s.
Proof.
  intros Hn Htag Hnl Hlen. unfold sanitize_chars, strip_tags, collapse_newlines.
  rewrite (re_sub_match_free _ _ _ Htag), (re_sub_match_free _ _ _ Hnl).
  rewrite py_take_nonneg by done. by apply take_ge.
Qed.

Lemma sanitize_chars_idempotent sc s :
  0 ≤ max_prompt_length sc →
  sanitize_chars sc (sanitize_chars sc s) = sanitize_chars sc s.
Proof.
  intros Hn. apply sanitize_chars_fixed; [done|..]; unfold sanitize_chars;
    rewrite py_take_nonneg by done.
  - apply take_tag_free, collapse_newlines_tag_free, strip_tags_free.
  - apply take_newline_free, collapse_newlines_free.
  - rewrite length_take. lia.
Qed.

(** C9.  Sanitising twice gives what sanitising once gives, for every
    prompt, provided the configured maximum prompt length is not
    negative. *)
Theorem sanitize_idempotent (a : Agent) (x : string) :
  0 ≤ max_prompt_length (security_config a) →
  _sanitize_prompt a (_sanitize_prompt a x) = _sanitize_prompt a x.
Proof.
  intros Hn. unfold _sanitize_prompt.
  rewrite list_ascii_of_string_of_list_ascii.
  f_equal. by apply sanitize_chars_idempotent.
Qed.

Lemma sanitize_idempotent_witness :
  _sanitize_prompt (create_ai_agent "key")
    (_sanitize_prompt (create_ai_agent "key") "a<b>c<>d<<e>f>g<h")
  = _sanitize_prompt (create_ai_agent "key") "a<b>c<>d<<e>f>g<h".
Proof.
  apply (sanitize_idempotent (create_ai_agent "key") "a<b>c<>d<<e>f>g<h").
  simpl. lia.
Defined.

(** ** Rationals and the monad *)

Lemma Qltb_lt x y : Qltb x y = true ↔ (x < y)%Q.
Proof. unfold Qltb, Qlt. apply Z.ltb_lt. Qed.

Lemma Qleb_le x y : Qleb x y = true ↔ (x <= y)%Q.
Proof. unfold Qleb, Qle. apply Z.leb_le. Qed.

Lemma Qltb_ge x y : Qltb x y = false ↔ (y <= x)%Q.
Proof. unfold Qltb, Qle. apply Z.ltb_ge. Qed.

Lemma Qleb_gt x y : Qleb x y = false ↔ (y < x)%Q.
Proof. unfold Qleb, Qlt. apply Z.leb_gt. Qed.

Lemma Qltb_ext x y x' y' :
  ((x < y)%Q ↔ (x' < y')%Q) → Qltb x y = Qltb x' y'.
Proof.
  intros H. destruct (Qltb x y) eqn:E, (Qltb x' y') eqn:E'; try done.
  - apply Qltb_lt, H, Qltb_lt in E. congruence.
  - apply Qltb_lt, H, Qltb_lt in E'. congruence.
Qed.

Ltac py_unfold :=
  unfold mbind, mret, Py_bind, Py_ret, raise, lift, get_agent, modify_agent,
    emit, log_error, log_event, sleep, time_time, next_call, try_except,
    capture in *.

(** ** The rate limiter *)

Lemma check_rate_limit_run env w :
  let now := clock env (ticks w) in
  let kept := prune (agent w) now in
  _check_rate_limit env w =
    if rate_limit_requests (security_config (agent w)) <=? Z.of_nat (length kept)
    then (Raise rate_limit_exceeded, pruned_world w kept)
    else (Ok (), pruned_world w (kept ++ [now])).
Proof.
  unfold _check_rate_limit. py_unfold. simpl.
  by destruct (_ <=? _).
Qed.

(** The entries kept are those strictly newer than [now - window]. *)
Lemma prune_newer a now :
  prune a now =
  List.filter
    (λ ts, Qltb (now - inject_Z (rate_limit_window (security_config a))) ts)
    (request_timestamps a).
Proof.
  unfold prune. apply List.filter_ext. intros ts.
  apply Qltb_ext. split; intros H; lra.
Qed.

Lemma prune_all a now :
  Forall (λ ts, now - ts < inject_Z (rate_limit_window (security_config a)))%Q
         (request_timestamps a) →
  prune a now = request_timestamps a.
Proof.
  unfold prune. induction (request_timestamps a) as [|ts l IH]; [done|].
  intros Hall. apply Forall_cons in Hall. destruct Hall as [Hts Hl]. simpl.
  rewrite (proj2 (Qltb_lt _ _) Hts). by rewrite IH.
Qed.

Lemma prune_none a now :
  Forall (λ ts, inject_Z (rate_limit_window (security_config a)) <= now - ts)%Q
         (request_timestamps a) →
  prune a now = [].
Proof.
  unfold prune. induction (request_timestamps a) as [|ts l IH]; [done|].
  intros Hall. apply Forall_cons in Hall. destruct Hall as [Hts Hl]. simpl.
  rewrite (proj2 (Qltb_ge _ _) Hts). by apply IH.
Qed.

Lemma gather_run_all {A} (tasks : list (Py A)) w :
  gather tasks w = (Ok (run_all tasks w).1, (run_all tasks w).2).
Proof.
  revert w. induction tasks as [|t ts IH]; intros w; [done|].
  simpl. py_unfold. destruct (t w) as [o w1]. rewrite IH.
  by destruct (run_all ts w1).
Qed.

Lemma run_all_cons {A} (t : Py A) ts w :
  run_all (t :: ts) w =
    ((t w).1 :: (run_all ts (t w).2).1, (run_all ts (t w).2).2).
Proof.
  simpl. destruct (t w) as [o w1]. simpl. by destruct (run_all ts w1).
Qed.

(** A burst: once [k] calls of a fresh window went through, the next
    [quota - k] calls within the window go through and one more fails. *)
Lemma burst_from env t0 (d k : nat) w :
  rate_limit_requests (security_config (agent w)) = Z.of_nat (k + d) →
  request_timestamps (agent w) = map (clock env) (seq t0 k) →
  ticks w = (t0 + k)%nat →
  (∀ i j, (i < j ≤ k + d)%nat →
     (clock env (t0 + j) - clock env (t0 + i)
        < inject_Z (rate_limit_window (security_config (agent w))))%Q) →
  (run_all (replicate (S d) (_check_rate_limit env)) w).1
    = replicate d (Ok ()) ++ [Raise rate_limit_exceeded].
Proof.
  revert k w. induction d as [|d IH]; intros k w Hquota Hts Hticks Hwin;
    rewrite replicate_S, run_all_cons, check_rate_limit_run, Hticks;
    (rewrite prune_all;
     [|rewrite Hts; apply Forall_map, Forall_seq; intros i Hi; simpl;
       replace i with (t0 + (i - t0))%nat by lia; apply Hwin; lia]);
    rewrite Hts, length_map, length_seq, Hquota.
  - replace (k + 0)%nat with k by lia. by rewrite Z.leb_refl.
  - rewrite (proj2 (Z.leb_gt _ _)) by lia. cbn [fst snd replicate app].
    f_equal. apply (IH (S k)); cbn [pruned_world agent ticks].
    + cbn [security_config with_request_timestamps].
      rewrite Hquota. f_equal. lia.
    + cbn [request_timestamps with_request_timestamps].
      by rewrite seq_S, map_app.
    + lia.
    + intros i j Hij. cbn [security_config with_request_timestamps].
      apply Hwin. lia.
Qed.

(** C8.  [_check_rate_limit] keeps the timestamps strictly newer than
    [now - rate_limit_window]; it raises when at least
    [rate_limit_requests] of them are left and otherwise records [now].
    Hence, from an empty window, [rate_limit_requests] calls within one
    window succeed and the next one fails; and a call made when every
    recorded timestamp is at least one window old succeeds. *)
Theorem check_rate_limit_window (env : Env) (w : World) :
  let sc := security_config (agent w) in
  let now := clock env (ticks w) in
  let kept :=
    List.filter (λ ts, Qltb (now - inject_Z (rate_limit_window sc)) ts)
                (request_timestamps (agent w)) in
  _check_rate_limit env w =
    (if rate_limit_requests sc <=? Z.of_nat (length kept)
     then (Raise rate_limit_exceeded, pruned_world w kept)
     else (Ok (), pruned_world w (kept ++ [now])))
  ∧ (∀ n : nat,
       rate_limit_requests sc = Z.of_nat n →
       request_timestamps (agent w) = [] →
       (∀ i j, (i < j ≤ n)%nat →
          (clock env (ticks w + j) - clock env (ticks w + i)
             < inject_Z (rate_limit_window sc))%Q) →
       ∃ w', gather (replicate (S n) (_check_rate_limit env)) w =
               (Ok (replicate n (Ok ()) ++ [Raise rate_limit_exceeded]), w'))
  ∧ (0 < rate_limit_requests sc →
     Forall (λ ts, inject_Z (rate_limit_window sc) <= now - ts)%Q
            (request_timestamps (agent w)) →
     _check_rate_limit env w = (Ok (), pruned_world w [now])).
Proof.
  intros sc now kept. split; [|split].
  - subst kept now sc. rewrite <- prune_newer. apply check_rate_limit_run.
  - intros n Hquota Hfresh Hwin. rewrite gather_run_all. eexists.
    do 2 f_equal.
    by apply (burst_from env (ticks w) n 0%nat); [..|lia|].
  - intros Hquota Hold. rewrite check_rate_limit_run.
    fold now. rewrite (prune_none _ _ Hold). cbn [length app].
    change (Z.of_nat 0) with 0.
    by rewrite (proj2 (Z.leb_gt _ _)) by exact Hquota.
Qed.

Lemma check_rate_limit_window_witness :
  ∃ w', gather (replicate 3 (_check_rate_limit silent_env))
               (initial_world (tuned_agent "key" 2 [])) =
          (Ok [Ok (); Ok (); Raise rate_limit_exceeded], w').
Proof.
  apply (proj1 (proj2 (check_rate_limit_window silent_env
                         (initial_world (tuned_agent "key" 2 [])))) 2%nat).
  - reflexivity.
  - reflexivity.
  - intros i j Hij. unfold Qlt. simpl. lia.
Defined.

(** ** solve: the unconfigured agent and the error boundary *)

Lemma solve_unfold env task w :
  solve env task w =
    try_except (solve_body env task (clock env (ticks w)))
               (solve_handler env task (clock env (ticks w))) (ticked w).
Proof. done. Qed.

(** C10.  With an empty API key or the placeholder key, [solve] returns
    the ready record (confidence ready, score 0, model system,
    processing time 0) and changes nothing in the world but the clock
    reading it starts with: no gateway call, no trace, the same agent. *)
Theorem solve_unconfigured (env : Env) (task : string) (w : World) :
  api_key (config (agent w)) = "" ∨
    api_key (config (agent w)) = placeholder_key →
  solve env task w = (Ok ready_result, ticked w)
  ∧ ready_result !! "confidence" = Some (VStr "ready")
  ∧ ready_result !! "score" = Some (VNum 0)
  ∧ ready_result !! "model" = Some (VStr "system")
  ∧ ready_result !! "processing_time" = Some (VNum 0).
Proof.
  intros Hkey. split; [|by vm_compute].
  rewrite solve_unfold. unfold solve_body. py_unfold. simpl.
  by destruct Hkey as [-> | ->].
Qed.

Lemma solve_unconfigured_witness :
  solve silent_env "What is a trust?" (initial_world (create_ai_agent placeholder_key))
    = (Ok ready_result, ticked (initial_world (create_ai_agent placeholder_key))).
Proof.
  apply (solve_unconfigured silent_env "What is a trust?"
           (initial_world (create_ai_agent placeholder_key))).
  right. reflexivity.
Defined.

Ltac populated_auto :=
  unfold populated;
  repeat (apply Forall_cons; split; [vm_compute; eauto|]);
  apply Forall_nil_2.

Lemma ready_result_populated : populated ready_result.
Proof. populated_auto. Qed.

Lemma no_candidates_result_populated t : populated (no_candidates_result t).
Proof. populated_auto. Qed.

Lemma no_reviews_result_populated c t : populated (no_reviews_result c t).
Proof. populated_auto. Qed.

Lemma winner_result_populated winner q t : populated (winner_result winner q t).
Proof. populated_auto. Qed.

Lemma error_result_populated e t : populated (error_result e t).
Proof. populated_auto. Qed.

Lemma bind_Ok_inv {A B} (m : Py A) (f : A → Py B) w r w' :
  (m ≫= f) w = (Ok r, w') →
  ∃ a w1, m w = (Ok a, w1) ∧ f a w1 = (Ok r, w').
Proof.
  unfold mbind, Py_bind. destruct (m w) as [[a|e] w1]; [eauto|done].
Qed.

Lemma solve_select_populated env start candidates reviews w r w' :
  solve_select env start candidates reviews w = (Ok r, w') → populated r.
Proof.
  unfold solve_select. destruct reviews as [|review reviews].
  - destruct candidates as [|first others]; [done|].
    py_unfold. intros [= <- _]. apply no_reviews_result_populated.
  - intros H. apply bind_Ok_inv in H as (sorted & w1 & _ & H).
    destruct sorted as [|[current_score winner] _]; [done|].
    apply bind_Ok_inv in H as (a & w2 & _ & H).
    apply bind_Ok_inv in H as (trigger & w3 & _ & H).
    apply bind_Ok_inv in H as (? & w4 & _ & H).
    apply bind_Ok_inv in H as (now & w5 & _ & H).
    apply bind_Ok_inv in H as (? & w6 & _ & H).
    injection H as <- _. apply winner_result_populated.
Qed.

Lemma solve_review_populated env task start candidates w r w' :
  solve_review env task start candidates w = (Ok r, w') → populated r.
Proof.
  unfold solve_review. destruct candidates as [|first others].
  - py_unfold. intros [= <- _]. apply no_candidates_result_populated.
  - intros H. apply bind_Ok_inv in H as (reviews & w1 & _ & H).
    by eapply solve_select_populated.
Qed.

Lemma solve_body_populated env task start w r w' :
  solve_body env task start w = (Ok r, w') → populated r.
Proof.
  unfold solve_body. intros H. apply bind_Ok_inv in H as (a & w1 & _ & H).
  destruct (_ || _).
  - injection H as <- _. apply ready_result_populated.
  - apply bind_Ok_inv in H as (candidates & w2 & _ & H).
    by eapply solve_review_populated.
Qed.

(** C1.  [solve] returns a record for every task and every world; the
    record carries a solution, a score, a model, a processing time and a
    confidence; and when the body of its [try] block raises, the record
    has score 0, the model tag error and the message of the exception in
    its error entry. *)
Theorem solve_total (env : Env) (task : string) (w : World) :
  ∃ result w',
    solve env task w = (Ok result, w')
    ∧ populated result
    ∧ ∀ e w1,
        solve_body env task (clock env (ticks w)) (ticked w) = (Raise e, w1) →
        result !! "score" = Some (VNum 0)
        ∧ result !! "model" = Some (VStr "error")
        ∧ result !! "error" = Some (VStr (exn_message e))
        ∧ result !! "solution"
            = Some (VStr ("An error occurred: " +:+ exn_message e)).
Proof.
  rewrite solve_unfold. unfold try_except.
  destruct (solve_body env task (clock env (ticks w)) (ticked w))
    as [[r|e] w1] eqn:Hbody.
  - exists r, w1. split; [done|]. split; [|done].
    by eapply solve_body_populated.
  - unfold solve_handler. py_unfold. simpl. eexists _, _. split; [done|].
    split; [apply error_result_populated|].
    intros e' w1' [= <- _]. by vm_compute.
Qed.

Lemma solve_total_witness :
  ∃ result w',
    solve silent_env "hello" (initial_world (tripped_agent "key"))
      = (Ok result, w')
    ∧ result !! "score" = Some (VNum 0)
    ∧ result !! "model" = Some (VStr "error")
    ∧ result !! "error" = Some (VStr "No available models").
Proof.
  destruct (solve_total silent_env "hello" (initial_world (tripped_agent "key")))
    as (result & w' & Hsolve & _ & Herr).
  exists result, w'. split; [exact Hsolve|].
  destruct (Herr (Exn RuntimeError "No available models")
                 (snd (solve_body silent_env "hello" 0%Q
                         (ticked (initial_world (tripped_agent "key"))))))
    as (Hs & Hm & He & _).
  - vm_compute. reflexivity.
  - auto.
Defined.

(** ** Candidate generation *)

Lemma run_all_length {A} (tasks : list (Py A)) w :
  length (run_all tasks w).1 = length tasks.
Proof.
  revert w. induction tasks as [|t ts IH]; intros w; [done|].
  rewrite run_all_cons. simpl. by rewrite IH.
Qed.

Lemma valid_results_run results w :
  ∃ w', valid_results results w
        = (Ok (List.filter (λ c, nonblank (text c)) (successes results)), w').
Proof.
  revert w. induction results as [|[r|e] rest IH]; intros w; simpl.
  - by eexists.
  - destruct (nonblank (text r)) eqn:Hr.
    + py_unfold. destruct (IH w) as [w' ->]. by eexists.
    + destruct (IH w) as [w' ->]. by eexists.
  - py_unfold. simpl. apply IH.
Qed.

Lemma nonblank_strip s : nonblank s = true ↔ strip s ≠ "".
Proof.
  unfold nonblank. rewrite negb_true_iff. split.
  - intros H Heq. rewrite Heq in H. done.
  - intros H. by apply String.eqb_neq.
Qed.

Lemma filter_successes_length {A} (p : A → bool) (outcomes : list (outcome A)) :
  (length (List.filter p (successes outcomes)) ≤ length outcomes)%nat.
Proof.
  induction outcomes as [|[r|e] rest IH]; simpl; [lia| |lia].
  destruct (p r); simpl; lia.
Qed.

Lemma failed_successes {A} (outcomes : list (outcome A)) :
  Forall failed outcomes → successes outcomes = [].
Proof.
  induction 1 as [|[r|e] rest Hf _ IH]; [done|done|]. simpl. apply IH.
Qed.

Lemma py_take_length {A} k (l : list A) :
  0 ≤ k → Z.of_nat (length (py_take k l)) ≤ k.
Proof. intros Hk. rewrite py_take_nonneg, length_take by done. lia. Qed.

(** C5.  [_generate_candidates] raises the no-available-models error
    when no configured model has a closed circuit, and only then.
    Otherwise it returns the gathered results whose stripped text is not
    empty: at most [min(num_candidates, len(models))] of them, none with
    an empty stripped text, and none at all (without an error) when every
    invocation failed. *)
Theorem generate_candidates_spec (env : Env) (task : string) (w : World) (n : Z) :
  let a := agent w in
  let quota := Z.min n (Z.of_nat (length (models (config a)))) in
  num_candidates a = quota → 0 ≤ n →
  (_get_active_models a = []
   ∧ ∃ w', _generate_candidates env task w = (Raise no_available_models, w'))
  ∨ (_get_active_models a ≠ []
     ∧ ∃ candidates w',
         let outcomes := (run_all (generation_tasks env a task) w).1 in
         _generate_candidates env task w = (Ok candidates, w')
         ∧ candidates
             = List.filter (λ c, nonblank (text c)) (successes outcomes)
         ∧ Z.of_nat (length candidates) ≤ quota
         ∧ Forall (λ c, strip (text c) ≠ "") candidates
         ∧ (Forall failed outcomes → candidates = [])).
Proof.
  intros a quota Hquota Hn. unfold _generate_candidates.
  destruct (_get_active_models a) as [|m ms] eqn:Hactive.
  - left. split; [done|]. py_unfold. fold a. rewrite Hactive. by eexists.
  - right. split; [done|]. py_unfold. fold a. rewrite Hactive.
    rewrite gather_run_all. cbn [fst snd].
    destruct (valid_results_run (run_all (generation_tasks env a task) w).1
                (run_all (generation_tasks env a task) w).2) as [w' Hvalid].
    rewrite Hvalid. eexists _, w'. split; [done|]. split; [done|].
    split; [|split].
    + etrans; [apply inj_le, filter_successes_length|].
      rewrite run_all_length. unfold generation_tasks. rewrite length_map.
      rewrite Hquota. apply py_take_length. unfold quota. lia.
    + apply Forall_forall. intros c Hc. apply list_elem_of_In in Hc.
      apply List.filter_In in Hc. apply nonblank_strip, Hc.
    + intros Hall. by rewrite failed_successes.
Qed.

Lemma generate_candidates_spec_witness :
  ∃ candidates w',
    _generate_candidates mixed_env "What is the capital of France?"
        (initial_world (create_ai_agent "key")) = (Ok candidates, w')
    ∧ Z.of_nat (length candidates) ≤ 3
    ∧ Forall (λ c, strip (text c) ≠ "") candidates.
Proof.
  destruct (generate_candidates_spec mixed_env "What is the capital of France?"
              (initial_world (create_ai_agent "key")) 3)
    as [[Hnil _]|(_ & candidates & w' & Hrun & _ & Hlen & Hstrip & _)].
  - reflexivity.
  - lia.
  - discriminate Hnil.
  - exists candidates, w'. auto.
Defined.

(** ** The gateway and responses without choices *)

Lemma on_response_lacks_choices a model attempt body d w :
  lacks_choices d →
  on_response a model attempt 200 body (Ok (VDict d)) w
    = (Raise invalid_format,
       traced w [EvLogError "invalid_model_response" "Missing choices in response"]).
Proof.
  intros Hd. unfold on_response. py_unfold. simpl.
  destruct Hd as [Hnone|(choices & Hsome & Hlen)].
  - by rewrite Hnone.
  - rewrite Hsome. simpl. unfold mbind, outcome_bind. by rewrite Hlen.
Qed.

(** The format error is raised inside the [try] of the attempt, so the
    generic handler meant for communication errors catches it.  When the
    reply to an attempt is a 200 response whose decoded body lacks a
    usable choices entry, the error leaves the attempt only if it is
    the final one; an earlier attempt logs it a second time, sleeps
    [attempt + 1] seconds and lets the loop go on. *)
Lemma format_error_retried (env : Env) (a : Agent) (model : string)
    (rq : request) (call attempt : nat) (body : string) (d : dict) (w : World) :
  backend env call attempt rq = Response 200 body (Ok (VDict d)) →
  lacks_choices d →
  let logged :=
    [EvPost call attempt rq;
     EvLogError "invalid_model_response" "Missing choices in response";
     EvLogError "model_communication_error" "Invalid model response format"] in
  attempt_once env a model rq call attempt w =
    if final_attempt a attempt
    then (Raise invalid_format, traced w logged)
    else (Ok Continue, traced w (logged ++ [EvSleep (Z.of_nat attempt + 1)])).
Proof.
  intros Hreply Hd logged. unfold attempt_once, try_except.
  unfold mbind at 1, Py_bind at 1. unfold emit at 1.
  rewrite Hreply, (on_response_lacks_choices a model attempt body d _ Hd).
  py_unfold. cbn [exn_class_of invalid_format exn_message].
  destruct (final_attempt a attempt); unfold traced; simpl;
    rewrite <- ?app_assoc; try done.
  by destruct (Z.of_nat attempt + 1).
Qed.

Lemma format_error_retried_witness :
  attempt_once flaky_env (create_ai_agent "key") "gpt-4o"
      {| rq_model := "gpt-4o"; rq_content := "hello"; rq_max_tokens := 2048 |}
      0 0 (initial_world (create_ai_agent "key"))
  = (Ok Continue,
     traced (initial_world (create_ai_agent "key"))
       [EvPost 0 0 {| rq_model := "gpt-4o"; rq_content := "hello";
                      rq_max_tokens := 2048 |};
        EvLogError "invalid_model_response" "Missing choices in response";
        EvLogError "model_communication_error" "Invalid model response format";
        EvSleep 1]).
Proof.
  exact (format_error_retried flaky_env (create_ai_agent "key") "gpt-4o"
           {| rq_model := "gpt-4o"; rq_content := "hello"; rq_max_tokens := 2048 |}
           0 0 "{}" ∅ (initial_world (create_ai_agent "key"))
           eq_refl (or_introl eq_refl)).
Defined.

(** C2, at a failing input.  The first reply of [flaky_env] is a 200
    response without choices.  The claim has the call fail there with
    the format error and post nothing more; the code posts a second
    attempt of the same call and returns its answer. *)
Lemma format_error_not_immediate :
  ∃ w',
    (∀ rq, backend flaky_env 0 0 rq = Response 200 "{}" (Ok (VDict ∅)))
    ∧ _call_openrouter flaky_env "gpt-4o" "What is the capital of France?" 2048
        (initial_world (create_ai_agent "key"))
      = (Ok (candidate "Paris" "gpt-4o"), w')
    ∧ posts (trace w') = [(0, 0); (0, 1)]%nat.
Proof. eexists. split; [done|]. split; by vm_compute. Qed.

(** ** Peer review *)

Lemma validate_numeric d q :
  as_number (score_of d) = Some q →
  _validate_review_scores d = Ok (Qleb 0 q && Qleb q 10).
Proof. unfold _validate_review_scores, score_of. by intros ->. Qed.

Lemma validate_not_numeric d :
  as_number (score_of d) = None →
  ∃ msg, _validate_review_scores d = Raise (Exn TypeError msg).
Proof. unfold _validate_review_scores, score_of. intros ->. by eexists. Qed.


Lemma review_loop_cons_ok env a c r rest acc :
  review_loop env a ((c, Ok r) :: rest) acc =
    match _validate_review_scores (annotated env a c (text r)) with
    | Ok true => review_loop env a rest (acc ++ [annotated env a c (text r)])
    | Ok false => review_loop env a rest acc
    | Raise e =>
        match exn_class_of e with
        | JSONDecodeError | KeyError =>
            log_error "review_parsing_failed" (exn_message e);;
            review_loop env a rest acc
        | _ => raise e
        end
    end.
Proof.
  cbn [review_loop]. fold (annotated env a c (text r)).
  by destruct (_validate_review_scores _) as [[|]|e].
Qed.

Lemma review_of_ok env a c r :
  review_of env a (c, Ok r) =
    match _validate_review_scores (annotated env a c (text r)) with
    | Ok true => Some (annotated env a c (text r))
    | _ => None
    end.
Proof. done. Qed.

(** When every parsed score is a number, the loop returns the reviews of
    the pairs that have one, in order, and raises nothing. *)
Lemma review_loop_run env a pairs acc w :
  Forall (numeric_score env a) pairs →
  ∃ w', review_loop env a pairs acc w
        = (Ok (acc ++ omap (review_of env a) pairs), w').
Proof.
  intros Hnum. revert acc w.
  induction Hnum as [|[c [r|e]] rest Hpair _ IH]; intros acc w.
  - exists w. simpl. by rewrite app_nil_r.
  - rewrite review_loop_cons_ok. cbn [omap list_omap]. rewrite review_of_ok.
    destruct Hpair as [q Hq]. simpl in Hq.
    rewrite (validate_numeric _ _ Hq).
    destruct (Qleb 0 q && Qleb q 10).
    + destruct (IH (acc ++ [annotated env a c (text r)]) w) as [w' ->].
      exists w'. by rewrite <- app_assoc.
    + apply IH.
  - cbn [review_loop]. py_unfold. apply IH.
Qed.


Lemma peer_review_unfold env task candidates w :
  _peer_review env task candidates w =
    review_loop env (agent w)
      (zip candidates (run_all (review_tasks env (agent w) task candidates) w).1)
      [] (run_all (review_tasks env (agent w) task candidates) w).2.
Proof.
  unfold _peer_review. py_unfold. by rewrite gather_run_all.
Qed.




(** When decoding fails, the parser falls back on the patterns and still
    yields a number as the score. *)
Lemma parse_fallback_score env response_text :
  (brace_span (list_ascii_of_string response_text)
     ≫= (λ group, json_loads env (string_of_list_ascii group))) = None →
  ∃ q, _parse_review_response env response_text !! "score" = Some (VNum q).
Proof.
  intros H. unfold _parse_review_response. rewrite H.
  eexists. apply lookup_insert_eq.
Qed.

(** Without blank candidates, the review coroutines are those of the
    candidates, in order. *)
Lemma review_tasks_aligned env a task candidates :
  Forall (λ c, nonblank (text c) = true) candidates →
  review_tasks env a task candidates =
    map (λ c, _call_openrouter env (review_model (config a))
                (_build_review_prompt task (text c)) 1024) candidates.
Proof.
  intros Hall. unfold review_tasks. f_equal.
  induction Hall as [|c cs Hc _ IH]; [done|]. simpl. by rewrite Hc, IH.
Qed.


(** ** Sorting by descending score *)

Section SortDesc.

Context {A : Type}.
Implicit Types (x y : Q * A) (l : list (Q * A)).

Lemma insert_desc_perm x l : Permutation (insert_desc x l) (x :: l).
Proof.
  induction l as [|y r IH]; simpl; [done|].
  destruct (Qleb y.1 x.1); [done|].
  rewrite IH. apply perm_swap.
Qed.

Lemma sort_desc_perm l : Permutation (sort_desc l) l.
Proof.
  induction l as [|x l IH]; simpl; [done|].
  by rewrite insert_desc_perm, IH.
Qed.

Lemma sort_desc_nil l : sort_desc l = [] → l = [].
Proof.
  intros H. apply Permutation_nil. rewrite <- H. apply sort_desc_perm.
Qed.

Lemma insert_desc_descending x l :
  descending l → descending (insert_desc x l).
Proof.
  induction l as [|y r IH]; simpl; [done|]. intros [Hy Hr].
  destruct (Qleb y.1 x.1) eqn:Hle; simpl.
  - apply Qleb_le in Hle. repeat split; try done.
    constructor; [done|]. eapply Forall_impl; [exact Hy|].
    intros z Hz. simpl in Hz. lra.
  - apply Qleb_gt in Hle. split; [|by apply IH].
    rewrite insert_desc_perm. constructor; [lra|done].
Qed.

Lemma sort_desc_descending l : descending (sort_desc l).
Proof.
  induction l as [|x l IH]; simpl; [done|]. by apply insert_desc_descending.
Qed.

(** The head of the sorted list is the first element of the input whose
    key is maximal: strictly greater than the keys before it, and not
    less than the keys after it. *)
Lemma sort_desc_head l x rest :
  sort_desc l = x :: rest →
  ∃ pre post, l = pre ++ x :: post
    ∧ Forall (λ y, (y.1 < x.1)%Q) pre
    ∧ Forall (λ y, (y.1 <= x.1)%Q) post.
Proof.
  revert x rest. induction l as [|a l IH]; intros x rest; [done|].
  simpl. destruct (sort_desc l) as [|y r] eqn:Hsort.
  - apply sort_desc_nil in Hsort as ->. intros [= <- <-].
    by exists [], [].
  - destruct (IH y r eq_refl) as (pre & post & -> & Hpre & Hpost).
    simpl. destruct (Qleb y.1 a.1) eqn:Hle.
    + apply Qleb_le in Hle. intros [= <- <-]. exists [], (pre ++ y :: post).
      split; [done|]. split; [done|].
      apply Forall_app. split.
      * eapply Forall_impl; [exact Hpre|]. intros z Hz. simpl in Hz. lra.
      * constructor; [done|].
        eapply Forall_impl; [exact Hpost|]. intros z Hz. simpl in Hz. lra.
    + apply Qleb_gt in Hle. intros [= <- <-]. exists (a :: pre), post.
      split; [done|]. split; [|done]. by constructor.
Qed.

(** Elements of one key keep their order. *)
Lemma insert_desc_stable (q : Q) x l :
  descending l →
  List.filter (λ y, Qeq_bool y.1 q) (insert_desc x l)
  = List.filter (λ y, Qeq_bool y.1 q) (x :: l).
Proof.
  induction l as [|y r IH]; [done|]. intros [Hy Hr]. simpl.
  destruct (Qleb y.1 x.1) eqn:Hle; [done|].
  apply Qleb_gt in Hle. simpl. rewrite IH by done. simpl.
  destruct (Qeq_bool x.1 q) eqn:Hx, (Qeq_bool y.1 q) eqn:Hyq; try done.
  apply Qeq_bool_iff in Hx, Hyq. lra.
Qed.

Lemma sort_desc_stable (q : Q) l :
  List.filter (λ y, Qeq_bool y.1 q) (sort_desc l)
  = List.filter (λ y, Qeq_bool y.1 q) l.
Proof.
  induction l as [|x l IH]; [done|]. simpl.
  rewrite insert_desc_stable by apply sort_desc_descending.
  simpl. by rewrite IH.
Qed.

End SortDesc.

(** ** Selection and the milestone tracker *)

Lemma score_key_valid r : valid_review r → score_key r = Ok (key_of r).
Proof.
  intros (q & Hq & _). unfold score_key, key_of. by rewrite Hq.
Qed.

Lemma sort_reviews_valid reviews :
  Forall valid_review reviews →
  sort_reviews reviews = Ok (sort_desc (keyed reviews)).
Proof.
  intros Hall. unfold sort_reviews.
  assert (mapM (λ review, q ← score_key review; mret (q, review)) reviews
          = Ok (keyed reviews)) as ->; [|done].
  induction Hall as [|r rs Hr _ IH]; [done|].
  cbn [mapM]. rewrite (score_key_valid _ Hr). cbn [mbind outcome_bind].
  by rewrite IH.
Qed.

Lemma py_max_spec m ms :
  py_max m ms ∈ m :: ms ∧ Forall (λ x, (x <= py_max m ms)%Q) (m :: ms).
Proof.
  unfold py_max. revert m. induction ms as [|y ms IH]; intros m; simpl.
  - split; [set_solver|]. constructor; [lra|done].
  - destruct (IH (if Qltb m y then y else m)) as [Hin Hall].
    apply Forall_cons in Hall. destruct Hall as [Hhead Htail].
    split.
    + destruct (Qltb m y); set_solver.
    + destruct (Qltb m y) eqn:Hlt.
      * apply Qltb_lt in Hlt. repeat constructor; try done. lra.
      * apply Qltb_ge in Hlt. repeat constructor; try done. lra.
Qed.

Lemma py_last_nonempty {A} n (l : list A) :
  l ≠ [] → (0 < n)%nat → py_last n l ≠ [].
Proof.
  intros Hl Hn Hnil. apply (f_equal length) in Hnil.
  unfold py_last in Hnil. rewrite length_drop in Hnil. simpl in Hnil.
  destruct l; [done|]. simpl in Hnil. lia.
Qed.

Lemma should_trigger_run a score m ms :
  py_last 10 (quality_milestones a) = m :: ms →
  Forall (λ x, (0 <= x)%Q) (m :: ms) →
  _should_trigger_improvement a score =
    Ok (Qltb (improvement_threshold a)
             ((score - py_max m ms) / (py_max m ms + epsilon))
        && Qltb 5 score).
Proof.
  intros Hlast Hpos. unfold _should_trigger_improvement.
  destruct (quality_milestones a) as [|m0 ms0] eqn:Hms; [done|].
  rewrite Hlast.
  destruct (Qeq_bool (py_max m ms + epsilon) 0) eqn:Hzero; [|done].
  apply Qeq_bool_iff in Hzero.
  destruct (py_max_spec m ms) as [Hin _].
  rewrite Forall_forall in Hpos. specialize (Hpos _ Hin).
  unfold epsilon in Hzero. lra.
Qed.

(** The winning path of [solve], once the sort and the trigger are
    known. *)
Lemma solve_select_winner env start candidates reviews q winner rest b w :
  reviews ≠ [] →
  sort_reviews reviews = Ok ((q, winner) :: rest) →
  _should_trigger_improvement (agent w) q = Ok b →
  solve_select env start candidates reviews w =
    (Ok (winner_result winner q (clock env (ticks w) - start)),
     {| agent :=
          if b then with_quality_milestones
                      (quality_milestones (agent w) ++ [q]) (agent w)
          else agent w;
        ticks := S (ticks w); calls := calls w;
        trace := trace w ++ [EvLogEvent "solution_generated"] |}).
Proof.
  intros Hne Hsort Htrigger. unfold solve_select.
  destruct reviews as [|r rs]; [done|].
  py_unfold. rewrite Hsort. simpl. rewrite Htrigger. by destruct b.
Qed.

Lemma longest_spec first others :
  ∃ pre post,
    first :: others = pre ++ longest first others :: post
    ∧ Forall (λ c, len (text c) < len (text (longest first others))) pre
    ∧ Forall (λ c, len (text c) ≤ len (text (longest first others))) post.
Proof.
  unfold longest. revert first.
  induction others as [|x xs IH]; intros first; simpl.
  { by exists [], []. }
  destruct (IH (if len (text first) <? len (text x) then x else first))
    as (pre & post & Heq & Hpre & Hpost).
  remember (fold_left _ xs _) as best eqn:Hbest. clear Hbest.
  destruct (len (text first) <? len (text x)) eqn:Hlt.
  - apply Z.ltb_lt in Hlt. exists (first :: pre), post.
    split; [by rewrite Heq|]. split; [|done]. constructor; [|done].
    destruct pre as [|p pre']; simpl in Heq; injection Heq as Hb Hp; subst;
      [done|].
    apply Forall_cons in Hpre. lia.
  - apply Z.ltb_ge in Hlt.
    destruct pre as [|p pre']; simpl in Heq; injection Heq as Hb Hp; subst.
    + exists [], (x :: post). split; [done|]. split; [done|]. by constructor.
    + exists (p :: x :: pre'), post. split; [done|]. split; [|done].
      apply Forall_cons in Hpre. destruct Hpre as [Hp Hpre'].
      constructor; [done|]. constructor; [lia|done].
Qed.

Lemma keyed_head reviews x rest :
  sort_desc (keyed reviews) = x :: rest →
  ∃ winner pre post,
    x = (key_of winner, winner)
    ∧ reviews = pre ++ winner :: post
    ∧ Forall (λ r, (key_of r < key_of winner)%Q) pre
    ∧ Forall (λ r, (key_of r <= key_of winner)%Q) post.
Proof.
  intros Hsort. apply sort_desc_head in Hsort as (pre' & post' & Heq & Hpre & Hpost).
  unfold keyed in Heq. apply fmap_app_inv in Heq as (pre & tail & -> & Htail & ->).
  symmetry in Htail. apply fmap_cons_inv in Htail as (winner & post & -> & -> & ->).
  exists winner, pre, post. split; [done|]. split; [done|].
  by rewrite !Forall_fmap in Hpre, Hpost.
Qed.

Lemma Forall_py_last {A} (P : A → Prop) n l :
  Forall P l → Forall P (py_last n l).
Proof. apply Forall_drop. Qed.

Lemma should_trigger_total a score :
  Forall (λ m, (0 <= m)%Q) (quality_milestones a) →
  ∃ b, _should_trigger_improvement a score = Ok b.
Proof.
  intros Hpos. destruct (quality_milestones a) as [|m0 ms0] eqn:Hms.
  { exists true. unfold _should_trigger_improvement. by rewrite Hms. }
  destruct (py_last 10 (quality_milestones a)) as [|m ms] eqn:Hlast.
  { exfalso. eapply (py_last_nonempty 10); [|lia|exact Hlast]. by rewrite Hms. }
  eexists. eapply should_trigger_run; [done|].
  rewrite <- Hlast. apply Forall_py_last. by rewrite Hms.
Qed.

Lemma confidence_lookup winner q t :
  winner_result winner q t !! "confidence"
  = Some (VStr (if Qltb 7 q then "high" else "medium")).
Proof. by vm_compute. Qed.

(** C6.  For a non-empty list of valid reviews the winner is the head of
    the stable descending sort by score, that is the first review of
    maximal score: every review before it scores strictly less, every
    review after it scores no more.  The record carries its score, and
    confidence high when that score is strictly greater than 7,
    medium otherwise.  Without candidates the confidence is none;
    without reviews the record carries the first candidate of maximal
    length, confidence low and score 5. *)
Theorem select_winner_spec (env : Env) (task : string) (start : Q)
    (candidates : list GatewayResult) (reviews : list dict) (w : World) :
  let now := clock env (ticks w) in
  (reviews ≠ [] → Forall valid_review reviews →
   Forall (λ m, (0 <= m)%Q) (quality_milestones (agent w)) →
   ∃ winner pre post rest result w',
     sort_reviews reviews = Ok ((key_of winner, winner) :: rest)
     ∧ reviews = pre ++ winner :: post
     ∧ Forall (λ r, (key_of r < key_of winner)%Q) pre
     ∧ Forall (λ r, (key_of r <= key_of winner)%Q) post
     ∧ solve_select env start candidates reviews w = (Ok result, w')
     ∧ result = winner_result winner (key_of winner) (now - start)
     ∧ result !! "score" = Some (score_of winner)
     ∧ ((7 < key_of winner)%Q → result !! "confidence" = Some (VStr "high"))
     ∧ ((key_of winner <= 7)%Q → result !! "confidence" = Some (VStr "medium")))
  ∧ (solve_review env task start [] w
       = (Ok (no_candidates_result (now - start)), ticked w)
     ∧ no_candidates_result (now - start) !! "confidence" = Some (VStr "none"))
  ∧ (∀ first others, candidates = first :: others →
     ∃ best pre post,
       solve_select env start candidates [] w
         = (Ok (no_reviews_result best (now - start)), ticked w)
       ∧ candidates = pre ++ best :: post
       ∧ Forall (λ c, len (text c) < len (text best)) pre
       ∧ Forall (λ c, len (text c) ≤ len (text best)) post
       ∧ no_reviews_result best (now - start) !! "solution"
           = Some (VStr (text best))
       ∧ no_reviews_result best (now - start) !! "confidence"
           = Some (VStr "low")
       ∧ no_reviews_result best (now - start) !! "score" = Some (VNum 5)).
Proof.
  intros now. split; [|split].
  - intros Hne Hvalid Hpos.
    pose proof (sort_reviews_valid reviews Hvalid) as Hsort.
    destruct (sort_desc (keyed reviews)) as [|x rest] eqn:Hkeyed.
    { apply sort_desc_nil in Hkeyed. by destruct reviews. }
    destruct (keyed_head reviews x rest Hkeyed)
      as (winner & pre & post & -> & Hsplit & Hpre & Hpost).
    destruct (should_trigger_total (agent w) (key_of winner) Hpos) as [b Hb].
    eexists winner, pre, post, rest, _, _.
    split; [exact Hsort|]. split; [exact Hsplit|].
    split; [exact Hpre|]. split; [exact Hpost|].
    split; [by apply (solve_select_winner env start candidates reviews
                        (key_of winner) winner rest b w)|].
    split; [done|]. split; [by vm_compute|].
    rewrite confidence_lookup. split.
    + intros H. apply Qltb_lt in H. by rewrite H.
    + intros H. apply Qltb_ge in H. by rewrite H.
  - by vm_compute.
  - intros first others ->.
    destruct (longest_spec first others) as (pre & post & Heq & Hpre & Hpost).
    exists (longest first others), pre, post.
    split; [done|]. split; [done|]. split; [done|]. split; [done|].
    by vm_compute.
Qed.

Ltac valid_review_auto :=
  repeat (apply Forall_cons; split;
          [eexists; split; [vm_compute; reflexivity|split; by vm_compute]|]);
  apply Forall_nil_2.

Lemma select_winner_spec_witness :
  ∃ result w',
    solve_select silent_env 0 three_candidates three_reviews
        (initial_world (create_ai_agent "key")) = (Ok result, w')
    ∧ result !! "score" = Some (VNum 9)
    ∧ result !! "model" = Some (VStr "claude-3-5-sonnet-20241022")
    ∧ result !! "confidence" = Some (VStr "high").
Proof.
  destruct (proj1 (select_winner_spec silent_env "Capital of France?" 0
                     three_candidates three_reviews
                     (initial_world (create_ai_agent "key"))))
    as (winner & pre & post & rest & result & w' & Hsort & _ & _ & _
        & Hrun & Hresult & Hscore & Hhigh & _).
  - done.
  - unfold three_reviews. valid_review_auto.
  - apply Forall_nil_2.
  - vm_compute in Hsort. injection Hsort as Hkey Hwinner _.
    exists result, w'. split; [exact Hrun|].
    rewrite Hresult, <- Hwinner. by vm_compute.
Defined.

(** C7.  [_should_trigger_improvement] answers true for every score when
    there is no milestone.  Otherwise, with [best] the greatest of the
    last ten milestones, it answers true exactly when
    [(score - best) / (best + 1e-5)] exceeds the improvement threshold
    and the score exceeds 5; with milestones 6.0 and 7.0 and threshold
    0.15, 8.5 triggers and 7.5 does not.  On the winning path of
    [solve] the winning score is appended to the milestones exactly when
    the answer is true. *)
Theorem should_trigger_improvement_spec (env : Env) (start : Q)
    (candidates : list GatewayResult) (reviews : list dict) (w : World)
    (score : Q) :
  let a := agent w in
  let recent := py_last 10 (quality_milestones a) in
  (quality_milestones a = [] → _should_trigger_improvement a score = Ok true)
  ∧ (quality_milestones a ≠ [] → Forall (λ m, (0 <= m)%Q) recent →
     ∃ best b,
       best ∈ recent ∧ Forall (λ m, (m <= best)%Q) recent
       ∧ _should_trigger_improvement a score = Ok b
       ∧ (b = true ↔
          (improvement_threshold a < (score - best) / (best + epsilon))%Q
          ∧ (5 < score)%Q))
  ∧ (_should_trigger_improvement seasoned_agent (17 # 2) = Ok true
     ∧ _should_trigger_improvement seasoned_agent (15 # 2) = Ok false)
  ∧ (∀ winner rest b,
       reviews ≠ [] →
       sort_reviews reviews = Ok ((score, winner) :: rest) →
       _should_trigger_improvement a score = Ok b →
       ∃ result w',
         solve_select env start candidates reviews w = (Ok result, w')
         ∧ quality_milestones (agent w')
           = if b then quality_milestones a ++ [score]
             else quality_milestones a).
Proof.
  intros a recent. split; [|split; [|split]].
  - intros Hnil. unfold _should_trigger_improvement. by rewrite Hnil.
  - intros Hne Hpos. subst recent.
    destruct (py_last 10 (quality_milestones a)) as [|m ms] eqn:Hlast.
    { exfalso. by eapply (py_last_nonempty 10 (quality_milestones a)); [|lia|]. }
    destruct (py_max_spec m ms) as [Hin Hmax].
    eexists (py_max m ms), _. split; [done|]. split; [done|].
    split; [by apply should_trigger_run|].
    rewrite andb_true_iff. by rewrite !Qltb_lt.
  - split; by vm_compute.
  - intros winner rest b Hne Hsort Hb. eexists _, _.
    split; [by eapply solve_select_winner|]. by destruct b.
Qed.

Lemma should_trigger_improvement_spec_witness :
  ∃ best b,
    best ∈ [6%Q; 7%Q]
    ∧ Forall (λ m, (m <= best)%Q) [6%Q; 7%Q]
    ∧ _should_trigger_improvement seasoned_agent (17 # 2) = Ok b
    ∧ (b = true ↔
       (15 # 100 < ((17 # 2) - best) / (best + epsilon))%Q ∧ (5 < 17 # 2)%Q).
Proof.
  apply (proj1 (proj2 (should_trigger_improvement_spec silent_env 0 [] []
                         (initial_world seasoned_agent) (17 # 2)))).
  - done.
  - repeat constructor; by vm_compute.
Defined.

(** ** Frames: what the guard, the gateway and the stages leave alone *)

Section Respects.

Context (env : Env) (R : World → World → Prop).

Section Guard.

Context `{!Frame env R}.

Lemma respects_ret {A} (a : A) : respects R (mret a).
Proof. intros w o w' [= _ <-]. apply frame_refl. Qed.

Lemma respects_raise {A} e : respects R (@raise A e).
Proof. intros w o w' [= _ <-]. apply frame_refl. Qed.

Lemma respects_lift {A} (x : outcome A) : respects R (lift x).
Proof. intros w o w' [= _ <-]. apply frame_refl. Qed.

Lemma respects_get_agent : respects R get_agent.
Proof. intros w o w' [= _ <-]. apply frame_refl. Qed.

Lemma respects_log_error ty msg : respects R (log_error ty msg).
Proof. intros w o w' [= _ <-]. by apply (frame_log w (EvLogError ty msg)). Qed.

Lemma respects_log_event ty : respects R (log_event ty).
Proof. intros w o w' [= _ <-]. by apply (frame_log w (EvLogEvent ty)). Qed.

Lemma respects_sleep s : respects R (sleep s).
Proof. intros w o w' [= _ <-]. by apply (frame_log w (EvSleep s)). Qed.

Lemma respects_time_time : respects R (time_time env).
Proof. intros w o w' [= _ <-]. apply frame_tick. Qed.

Lemma respects_next_call : respects R next_call.
Proof. intros w o w' [= _ <-]. apply frame_call. Qed.

Lemma respects_bind {A B} (m : Py A) (f : A → Py B) :
  respects R m → (∀ a, respects R (f a)) → respects R (m ≫= f).
Proof.
  intros Hm Hf w o w'. unfold mbind, Py_bind.
  destruct (m w) as [[a|e] w1] eqn:Hrun.
  - intros Hfa. eapply frame_trans; [by eapply Hm|by eapply Hf].
  - intros [= _ <-]. by eapply Hm.
Qed.

Lemma respects_try_except {A} (body : Py A) handler :
  respects R body → (∀ e, respects R (handler e)) →
  respects R (try_except body handler).
Proof.
  intros Hm Hf w o w'. unfold try_except.
  destruct (body w) as [[a|e] w1] eqn:Hrun.
  - intros [= _ <-]. by eapply Hm.
  - intros Hh. eapply frame_trans; [by eapply Hm|by eapply Hf].
Qed.

Lemma respects_capture {A} (m : Py A) : respects R m → respects R (capture m).
Proof.
  intros Hm w o w'. unfold capture. destruct (m w) as [o1 w1] eqn:Hrun.
  intros [= _ <-]. by eapply Hm.
Qed.

Lemma respects_gather {A} (tasks : list (Py A)) :
  Forall (respects R) tasks → respects R (gather tasks).
Proof.
  induction 1 as [|t ts Ht _ IH]; simpl.
  - apply respects_ret.
  - apply respects_bind; [by apply respects_capture|]. intros r.
    apply respects_bind; [done|]. intros rs. apply respects_ret.
Qed.

Lemma respects_run_all {A} (tasks : list (Py A)) w :
  Forall (respects R) tasks → R w (run_all tasks w).2.
Proof.
  intros Hall. eapply (respects_gather tasks Hall w).
  apply gather_run_all.
Qed.

End Guard.

End Respects.

Ltac respects_step env R :=
  first
    [ apply (respects_ret env R) | apply (respects_raise env R)
    | apply (respects_lift env R) | apply (respects_get_agent env R)
    | apply (respects_log_error env R) | apply (respects_log_event env R)
    | apply (respects_sleep env R) | apply (respects_time_time env R)
    | apply (respects_next_call env R)
    | apply (frame_check (env:=env) (R:=R))
    | apply (respects_bind env R); [|intros ?]
    | apply (respects_try_except env R); [|intros ?]
    | match goal with
      | |- respects _ (if ?b then _ else _) => destruct b
      | |- respects _ (match ?x with _ => _ end) => destruct x
      end ].

Section Stages.

Context (env : Env) (R : World → World → Prop).

Lemma respects_on_response `{!Frame env R} a model attempt status body json :
  respects R (on_response a model attempt status body json).
Proof. unfold on_response. repeat respects_step env R. Qed.

Lemma respects_valid_results `{!Frame env R} results :
  respects R (valid_results results).
Proof.
  induction results as [|[r|e] rest IH]; cbn [valid_results];
    repeat respects_step env R; exact IH.
Qed.

Lemma respects_review_loop `{!Frame env R} a pairs reviews :
  respects R (review_loop env a pairs reviews).
Proof.
  revert reviews. induction pairs as [|[c [r|e]] rest IH]; intros reviews.
  - apply (respects_ret env R).
  - rewrite review_loop_cons_ok. repeat respects_step env R; apply IH.
  - cbn [review_loop]. repeat respects_step env R; apply IH.
Qed.

Context `{!PostFrame env R}.

Lemma respects_post call attempt rq :
  respects R (emit (EvPost call attempt rq)).
Proof. intros w o w' [= _ <-]. apply frame_post. Qed.

Lemma respects_attempt_once a model rq call attempt :
  respects R (attempt_once env a model rq call attempt).
Proof.
  unfold attempt_once.
  repeat first [apply respects_post | apply respects_on_response
               | respects_step env R].
Qed.

Lemma respects_attempts a model rq call todo :
  respects R (attempts env a model rq call todo).
Proof.
  induction todo as [|attempt rest IH]; cbn [attempts].
  - apply (respects_ret env R).
  - apply (respects_bind env R); [apply respects_attempt_once|].
    intros [|r]; [exact IH|apply (respects_ret env R)].
Qed.

Lemma respects_call_openrouter model prompt max_tokens' :
  respects R (_call_openrouter env model prompt max_tokens').
Proof.
  unfold _call_openrouter. repeat first [apply respects_attempts | respects_step env R].
Qed.

Lemma respects_generate_candidates task :
  respects R (_generate_candidates env task).
Proof.
  unfold _generate_candidates.
  repeat first [apply respects_valid_results | respects_step env R].
  apply (respects_gather env R), Forall_forall. intros t Ht.
  apply list_elem_of_fmap in Ht as (m & -> & _).
  apply respects_call_openrouter.
Qed.

Lemma respects_peer_review task candidates :
  respects R (_peer_review env task candidates).
Proof.
  unfold _peer_review.
  repeat first [apply respects_review_loop | respects_step env R].
  apply (respects_gather env R), Forall_forall. intros t Ht.
  apply list_elem_of_fmap in Ht as (c & -> & _).
  apply respects_call_openrouter.
Qed.

End Stages.

Lemma same_but_window_refl w : same_but_window w w.
Proof. exists (request_timestamps (agent w)). by destruct (agent w). Qed.

Lemma same_but_window_trans w1 w2 w3 :
  same_but_window w1 w2 → same_but_window w2 w3 → same_but_window w1 w3.
Proof. intros [ts1 H1] [ts2 H2]. exists ts2. by rewrite H2, H1. Qed.

Lemma same_but_window_agent w w' :
  agent w' = agent w → same_but_window w w'.
Proof.
  intros H. exists (request_timestamps (agent w)). rewrite H.
  by destruct (agent w).
Qed.

Lemma same_but_window_fields w w' :
  same_but_window w w' →
  config (agent w') = config (agent w)
  ∧ security_config (agent w') = security_config (agent w)
  ∧ num_candidates (agent w') = num_candidates (agent w)
  ∧ improvement_threshold (agent w') = improvement_threshold (agent w)
  ∧ quality_milestones (agent w') = quality_milestones (agent w)
  ∧ suspicious_patterns (agent w') = suspicious_patterns (agent w)
  ∧ circuit_state (agent w') = circuit_state (agent w).
Proof. by intros [ts ->]. Qed.

Lemma check_rate_limit_cases env w o w' :
  _check_rate_limit env w = (o, w') →
  let now := clock env (ticks w) in
  let kept := prune (agent w) now in
  (o = Raise rate_limit_exceeded ∧ w' = pruned_world w kept
   ∧ rate_limit_requests (security_config (agent w)) ≤ Z.of_nat (length kept))
  ∨ (o = Ok () ∧ w' = pruned_world w (kept ++ [now])
     ∧ Z.of_nat (length kept) < rate_limit_requests (security_config (agent w))).
Proof.
  rewrite check_rate_limit_run. intros H now kept.
  destruct (_ <=? _) eqn:Hq; injection H as <- <-.
  - left. by apply Z.leb_le in Hq.
  - right. by apply Z.leb_gt in Hq.
Qed.

#[export] Instance same_but_window_frame env : Frame env same_but_window.
Proof.
  split.
  - apply same_but_window_refl.
  - apply same_but_window_trans.
  - intros w ev _. by apply same_but_window_agent.
  - intros w. by apply same_but_window_agent.
  - intros w. by apply same_but_window_agent.
  - intros w o w' H. apply check_rate_limit_cases in H.
    destruct H as [(_ & -> & _)|(_ & -> & _)]; by eexists.
Qed.

#[export] Instance same_but_window_post_frame env :
  PostFrame env same_but_window.
Proof. split; [apply _|]. intros w c i rq. by apply same_but_window_agent. Qed.

Lemma prune_length a now :
  (length (prune a now) ≤ length (request_timestamps a))%nat.
Proof. apply List.filter_length_le. Qed.

Lemma keeps_window_agent w w' : agent w' = agent w → keeps_window w w'.
Proof.
  intros H. split; [by apply same_but_window_agent|].
  unfold window_within_quota. by rewrite H.
Qed.

#[export] Instance keeps_window_frame env : Frame env keeps_window.
Proof.
  split.
  - intros w. by apply keeps_window_agent.
  - intros w1 w2 w3 [Hs1 H1] [Hs2 H2]. split; [|auto].
    by eapply same_but_window_trans.
  - intros w ev _. by apply keeps_window_agent.
  - intros w. by apply keeps_window_agent.
  - intros w. by apply keeps_window_agent.
  - intros w o w' H. split; [by eapply (frame_check (R:=same_but_window))|].
    apply check_rate_limit_cases in H. unfold window_within_quota.
    pose proof (prune_length (agent w) (clock env (ticks w))) as Hlen.
    destruct H as [(_ & -> & _)|(_ & -> & Hlt)]; simpl; intros Hw.
    + lia.
    + rewrite length_app. simpl. lia.
Qed.

#[export] Instance keeps_window_post_frame env : PostFrame env keeps_window.
Proof. split; [apply _|]. intros w c i rq. by apply keeps_window_agent. Qed.

Lemma posts_app ev1 ev2 : posts (ev1 ++ ev2) = posts ev1 ++ posts ev2.
Proof. unfold posts. apply omap_app. Qed.

#[export] Instance quiet_frame env : Frame env quiet.
Proof.
  split; unfold quiet.
  - done.
  - intros w1 w2 w3 H1 H2. by rewrite H2.
  - intros w ev Hev. simpl. rewrite posts_app.
    destruct ev; try done; apply app_nil_r.
  - done.
  - done.
  - intros w o w' H. apply check_rate_limit_cases in H.
    by destruct H as [(_ & -> & _)|(_ & -> & _)].
Qed.

Lemma framed_call_openrouter env model prompt max_tokens' :
  respects same_but_window (_call_openrouter env model prompt max_tokens').
Proof. apply respects_call_openrouter, _. Qed.

(** ** The pattern list of the constructor and the review prompt *)

Lemma chars_app s1 s2 :
  list_ascii_of_string (s1 +:+ s2)
  = list_ascii_of_string s1 ++ list_ascii_of_string s2.
Proof. induction s1 as [|c s1 IH]; [done|]. simpl. by rewrite IH. Qed.

Lemma contains_app_r p l1 l2 :
  contains p l2 = true → contains p (l1 ++ l2) = true.
Proof.
  intros H. induction l1 as [|a l1 IH]; [done|].
  simpl. rewrite IH. apply orb_true_r.
Qed.

Lemma search_literal_i_app_r lit s1 s2 :
  search_literal_i lit s2 = true → search_literal_i lit (s1 +:+ s2) = true.
Proof.
  unfold search_literal_i. intros H.
  rewrite chars_app, map_app. by apply contains_app_r.
Qed.

(** The rubric of the review prompt holds the word Evaluate, which the
    literal eval matches without regard to case. *)
Lemma review_prompt_matches_eval task solution :
  search_literal_i "eval" (_build_review_prompt task solution) = true.
Proof.
  unfold _build_review_prompt.
  do 4 apply search_literal_i_app_r. by vm_compute.
Qed.

Lemma validate_ignores_window ts a prompt :
  _validate_prompt (with_request_timestamps ts a) prompt
  = _validate_prompt a prompt.
Proof. done. Qed.

(** With the patterns of the constructor, every review prompt is
    refused, whatever the task and the candidate. *)
Lemma review_prompt_rejected a task solution :
  suspicious_patterns a = default_patterns →
  ∃ msg, _validate_prompt a (_build_review_prompt task solution)
         = Raise (Exn PromptInjectionException msg).
Proof.
  intros Hpat. unfold _validate_prompt. destruct (_ <? _); [by eexists|].
  destruct (List.find _ _) as [p|] eqn:Hfind; [by eexists|].
  exfalso. rewrite Hpat in Hfind.
  pose proof (List.find_none _ _ Hfind
    {| pattern_source := "(?i)(system|exec|eval|compile|execfile)";
       pattern_literals := ["system"; "exec"; "eval"; "compile"; "execfile"] |})
    as Hnone.
  cbv beta in Hnone. unfold pattern_search in Hnone.
  cbn [pattern_literals existsb] in Hnone.
  rewrite review_prompt_matches_eval, !orb_true_r in Hnone.
  discriminate Hnone. unfold default_patterns. simpl. auto.
Qed.

Lemma validate_same_but_window w w' prompt :
  same_but_window w w' →
  _validate_prompt (agent w') prompt = _validate_prompt (agent w) prompt.
Proof. by intros [ts ->]. Qed.

(** A call whose prompt the guard refuses: the window is pruned, and
    the call ends either in the rate limiter or, one timestamp later, in
    the guard. *)
Lemma call_openrouter_rejected_run env model prompt max_tokens' w e :
  _validate_prompt (agent w) prompt = Raise e →
  _call_openrouter env model prompt max_tokens' w =
    let now := clock env (ticks w) in
    let kept := prune (agent w) now in
    if rate_limit_requests (security_config (agent w))
       <=? Z.of_nat (length kept)
    then (Raise rate_limit_exceeded, guarded_world w kept)
    else (Raise e, guarded_world w (kept ++ [now])).
Proof.
  intros He. unfold _call_openrouter.
  unfold mbind at 1, Py_bind at 1, next_call at 1.
  unfold mbind at 1, Py_bind at 1. rewrite check_rate_limit_run.
  cbn [agent ticks]. destruct (_ <=? _); [done|].
  py_unfold. cbn [agent pruned_world]. by rewrite validate_ignores_window, He.
Qed.

Lemma call_openrouter_rejected env model prompt max_tokens' w :
  rejected (agent w) prompt →
  ∃ e w', _call_openrouter env model prompt max_tokens' w = (Raise e, w')
          ∧ quiet w w' ∧ same_but_window w w'.
Proof.
  intros [e He]. rewrite (call_openrouter_rejected_run _ _ _ _ _ _ He).
  cbv zeta. destruct (_ <=? _); eexists _, _; (split; [done|]);
    by split; [|eexists].
Qed.

(** Calls whose prompts the guard refuses all fail, one after the other,
    and none of them reaches the backend. *)
Lemma run_all_rejected {X} env (model prompt : X → string) max_tokens'
    (xs : list X) w :
  Forall (λ x, rejected (agent w) (prompt x)) xs →
  let run :=
    run_all (map (λ x, _call_openrouter env (model x) (prompt x) max_tokens')
                 xs) w in
  Forall failed run.1 ∧ quiet w run.2 ∧ same_but_window w run.2.
Proof.
  revert w. induction xs as [|x xs IH]; intros w Hall.
  { simpl. split; [done|]. split; [done|apply same_but_window_refl]. }
  apply Forall_cons in Hall. destruct Hall as [Hx Hxs].
  cbn [map]. rewrite run_all_cons. cbn [fst snd].
  destruct (call_openrouter_rejected env (model x) (prompt x) max_tokens' w Hx)
    as (e & w' & Hrun & Hquiet & Hsame).
  rewrite Hrun. cbn [fst snd].
  destruct (IH w') as (Hfailed & Hq & Hs).
  { eapply Forall_impl; [exact Hxs|]. intros y [ey Hy]. exists ey.
    by rewrite (validate_same_but_window w w'). }
  split; [by constructor|]. split.
  - unfold quiet in *. by rewrite Hq.
  - by eapply same_but_window_trans.
Qed.

Lemma zip_failed_no_review env a (cs : list GatewayResult) outcomes :
  Forall failed outcomes →
  Forall (numeric_score env a) (zip cs outcomes)
  ∧ omap (review_of env a) (zip cs outcomes) = [].
Proof.
  intros Hall. revert cs. induction Hall as [|[r|e] os Ho _ IH]; intros cs.
  - by destruct cs.
  - done.
  - destruct cs as [|c cs]; [done|]. destruct (IH cs) as [Hnum Hnil].
    split; [by constructor|]. simpl. exact Hnil.
Qed.

(** When the guard refuses every review prompt, [_peer_review] returns
    no review and reaches no backend. *)
Lemma peer_review_all_rejected env task candidates w :
  (∀ solution, rejected (agent w) (_build_review_prompt task solution)) →
  ∃ w', _peer_review env task candidates w = (Ok [], w')
        ∧ quiet w w' ∧ same_but_window w w'.
Proof.
  intros Hrej. rewrite peer_review_unfold. unfold review_tasks.
  destruct (run_all_rejected env (λ _, review_model (config (agent w)))
              (λ c, _build_review_prompt task (text c)) 1024
              (List.filter (λ c, nonblank (text c)) candidates) w)
    as (Hfailed & Hquiet & Hsame).
  { apply Forall_forall. intros c _. apply Hrej. }
  destruct (zip_failed_no_review env (agent w) candidates _ Hfailed)
    as [Hnum Hnil].
  match goal with |- context [review_loop env ?a ?pairs [] ?w1] =>
    destruct (review_loop_run env a pairs [] w1 Hnum) as [w' Hrun];
    pose proof (respects_review_loop env quiet a pairs [] _ _ _ Hrun) as Hq2;
    pose proof (respects_review_loop env same_but_window a pairs [] _ _ _ Hrun)
      as Hs2
  end.
  exists w'. rewrite Hrun, Hnil. split; [done|]. split.
  - unfold quiet in *. by rewrite Hq2.
  - by eapply same_but_window_trans.
Qed.

(** X1.  With the pattern list of the constructor, [_peer_review]
    produces no review and posts no request, whatever the task, the
    candidates and the backend: the rubric of the review prompt holds
    the word Evaluate, which the pattern for eval matches, so the guard
    refuses every review call. *)
Theorem peer_review_default_patterns (env : Env) (task : string)
    (candidates : list GatewayResult) (w : World) :
  suspicious_patterns (agent w) = default_patterns →
  ∃ w', _peer_review env task candidates w = (Ok [], w')
        ∧ posts (trace w') = posts (trace w).
Proof.
  intros Hpat.
  destruct (peer_review_all_rejected env task candidates w)
    as (w' & Hrun & Hquiet & _).
  - intros solution.
    destruct (review_prompt_rejected (agent w) task solution Hpat) as [msg H].
    by eexists.
  - by exists w'.
Qed.

Lemma peer_review_default_patterns_witness :
  ∃ w', _peer_review (echo_env (quote "score" +:+ ": 9.5"))
          "Capital of France?" three_candidates
          (initial_world (create_ai_agent "key")) = (Ok [], w')
        ∧ posts (trace w') = [].
Proof.
  apply (peer_review_default_patterns (echo_env (quote "score" +:+ ": 9.5"))
           "Capital of France?" three_candidates
           (initial_world (create_ai_agent "key"))).
  reflexivity.
Defined.

(** ** The guard inside the gateway *)

(** X2.  The gateway checks the rate limit before it validates the prompt.
    A prompt the guard refuses, on a window that still has room, ends
    the call in the guard's exception; by then its timestamp is in the
    window, and no request was posted. *)
Theorem rejected_call_spends_quota (env : Env) (model prompt : string)
    (max_tokens' : Z) (w : World) (e : exn) :
  _validate_prompt (agent w) prompt = Raise e →
  Z.of_nat (length (prune (agent w) (clock env (ticks w))))
    < rate_limit_requests (security_config (agent w)) →
  ∃ w', _call_openrouter env model prompt max_tokens' w = (Raise e, w')
        ∧ request_timestamps (agent w')
          = prune (agent w) (clock env (ticks w)) ++ [clock env (ticks w)]
        ∧ posts (trace w') = posts (trace w).
Proof.
  intros He Hroom. rewrite (call_openrouter_rejected_run _ _ _ _ _ _ He).
  cbv zeta. destruct (_ <=? _) eqn:Hfull; [apply Z.leb_le in Hfull; lia|].
  by eexists.
Qed.

Lemma rejected_call_spends_quota_witness :
  ∃ e w', _call_openrouter silent_env "gpt-4o" "please run sudo reboot" 2048
            (initial_world (create_ai_agent "key")) = (Raise e, w')
          ∧ exn_class_of e = PromptInjectionException
          ∧ request_timestamps (agent w') = [0%Q]
          ∧ posts (trace w') = [].
Proof.
  destruct (rejected_call_spends_quota silent_env "gpt-4o"
              "please run sudo reboot" 2048
              (initial_world (create_ai_agent "key"))
              (Exn PromptInjectionException
                 ("Malicious pattern detected: "
                  +:+ "(?i)(sudo|rm -rf|chmod|passwd|ssh-key)")))
    as (w' & Hrun & Hts & Hposts).
  - by vm_compute.
  - by vm_compute.
  - eexists _, w'. split; [exact Hrun|]. split; [done|].
    split; [exact Hts|exact Hposts].
Defined.

(** ** Reviews whose score is no number *)

Lemma review_loop_type_error env a before c r after acc w :
  Forall (numeric_score env a) before →
  as_number (score_of (annotated env a c (text r))) = None →
  ∃ e w', review_loop env a (before ++ (c, Ok r) :: after) acc w = (Raise e, w')
          ∧ exn_class_of e = TypeError.
Proof.
  intros Hnum Hscore. revert acc w.
  induction Hnum as [|[c' [r'|e']] rest Hpair _ IH]; intros acc w.
  - cbn [app]. rewrite review_loop_cons_ok.
    destruct (validate_not_numeric _ Hscore) as [msg ->]. by eexists _, _.
  - cbn [app]. rewrite review_loop_cons_ok.
    destruct Hpair as [q Hq]. simpl in Hq. rewrite (validate_numeric _ _ Hq).
    destruct (Qleb 0 q && Qleb q 10); apply IH.
  - cbn [app review_loop]. py_unfold. apply IH.
Qed.

(** X3.  The handler around the parsing of a review catches decoding and key
    errors only.  When the first review whose score is no number comes
    up, the comparison with the bounds raises [TypeError], which leaves
    [_peer_review]: the reviews collected so far and those still to
    come are lost. *)
Theorem peer_review_type_error (env : Env) (task : string)
    (candidates : list GatewayResult) (w : World)
    (before after : list (GatewayResult * outcome GatewayResult))
    (pair : GatewayResult * outcome GatewayResult) :
  zip candidates (run_all (review_tasks env (agent w) task candidates) w).1
    = before ++ pair :: after →
  Forall (numeric_score env (agent w)) before →
  ¬ numeric_score env (agent w) pair →
  ∃ e w', _peer_review env task candidates w = (Raise e, w')
          ∧ exn_class_of e = TypeError.
Proof.
  intros Hzip Hbefore Hpair. rewrite peer_review_unfold, Hzip.
  destruct pair as [c [r|e]]; [|by destruct Hpair].
  apply review_loop_type_error; [done|].
  unfold numeric_score in Hpair. simpl in Hpair.
  by destruct (as_number _); [destruct Hpair|].
Qed.

Lemma peer_review_type_error_witness :
  ∃ e w', _peer_review quoted_score_env "Capital of France?"
            [candidate "Paris" "gpt-4o"]
            (initial_world (tuned_agent "key" 100 [])) = (Raise e, w')
          ∧ exn_class_of e = TypeError.
Proof.
  apply (peer_review_type_error quoted_score_env "Capital of France?"
           [candidate "Paris" "gpt-4o"]
           (initial_world (tuned_agent "key" 100 []))
           [] [] (candidate "Paris" "gpt-4o", Ok (candidate quoted_score "gpt-4o"))).
  - by vm_compute.
  - constructor.
  - intros [q Hq]. vm_compute in Hq. discriminate Hq.
Defined.
